(** * Nyxus feature kernels: geodetic length / thickness and NGTDM

    A shallow embedding of
      - [src/nyx/features/geo_len_thickness.cpp]
        (class [GeodeticLengthThicknessFeature]) and
      - [src/nyx/ngtdm.cpp] (class [NGTDM_features]).

    C++ [double] is IEEE-754 binary64, embedded as Rocq's primitive [float];
    [size_t] is a 64-bit and [PixIntens] a 32-bit unsigned integer, embedded
    as [Z] with the wrap-around written out; [int] is embedded as [Z] and an
    operation whose C++ behaviour is undefined (signed overflow, division by
    zero, an out-of-range subscript or float-to-integer conversion) yields
    [None] in the [option] monad. *)

From Stdlib Require Import ZArith QArith Qabs List Lia Bool.
From Stdlib Require Import FunctionalExtensionality.
From Stdlib Require Import Floats.PrimFloat Floats.SpecFloat Floats.FloatOps.
From Stdlib Require Import Floats.FloatAxioms.
From Stdlib Require Uint63.
From stdpp Require Import base option list gmap sorting.

Local Open Scope Z_scope.

(** ** C++ scalar types *)

Module Cxx.

Abbreviation double := PrimFloat.float.

Definition size_t_modulus : Z := 2 ^ 64.
Definition uint32_modulus : Z := 2 ^ 32.
Definition INT_MAX : Z := 2 ^ 31 - 1.
Definition INT_MIN : Z := - 2 ^ 31.

(** Unsigned arithmetic is modular. *)
Definition wrap_size_t (z : Z) : Z := z mod size_t_modulus.
Definition wrap_uint32 (z : Z) : Z := z mod uint32_modulus.

(** Signed [int] arithmetic: a result outside the type is undefined. *)
Definition int_checked (z : Z) : option Z :=
  if decide (INT_MIN ≤ z ≤ INT_MAX) then Some z else None.

(** Integer to [double]: the integer rounded to the nearest binary64
    value, ties to even (exact below 2^53). *)
Definition double_of_Z (z : Z) : double :=
  SF2Prim (binary_normalize prec emax z 0 false).

(** [double] to integer: truncation toward zero; NaN and the infinities
    have no integer value. *)
Definition trunc_double (d : double) : option Z :=
  match Prim2SF d with
  | S754_zero _ => Some 0
  | S754_finite s m e =>
      let mag := Z.shiftl (Z.pos m) e in
      Some (if s then - mag else mag)
  | S754_infinity _ | S754_nan => None
  end.

(** [double] to [size_t]: undefined when the truncated value does not fit. *)
Definition size_t_of_double (d : double) : option Z :=
  z ← trunc_double d;
  if decide (0 ≤ z < size_t_modulus) then Some z else None.

(** [double] to [int]: undefined when the truncated value does not fit. *)
Definition int_of_double (d : double) : option Z :=
  z ← trunc_double d;
  int_checked z.

(** [std::abs] on [double], [sqrt], and the comparisons used below. *)
Definition fabs (d : double) : double := PrimFloat.abs d.
Definition sqrt (d : double) : double := PrimFloat.sqrt d.

(** [resize (n, v)] of [std::vector]: truncate, or pad with [v]. *)
Definition resize {A} (n : nat) (v : A) (l : list A) : list A :=
  take n l ++ replicate (n - length l) v.

End Cxx.

Import Cxx.

(** ** The ROI record, as far as the two features read it *)

(** The feature identifiers the geodetic feature names. *)
Inductive AvailableFeatures : Set :=
  | AREA_PIXELS_COUNT
  | PERIMETER
  | GEODETIC_LENGTH
  | THICKNESS.

(** [LR]: the per-label record.  [fvals] is indexed by feature identifier and
    holds a vector of doubles per feature; [aux_area] is the pixel count.
    [parallel_process_1_batch] skips a record whose [has_bad_data] holds and
    runs [calculate] and [save_value] on the others. *)
Record LR : Type := mkLR {
  aux_area : Z;
  fvals : AvailableFeatures → list double;
  bad_data : bool
}.

(** Modelled from the spec: [has_bad_data ()] reads the validity flag of the
    record (the class [LR] is not among the sources). *)
Definition has_bad_data (r : LR) : bool := bad_data r.

(** ** GeodeticLengthThicknessFeature *)

Module GeodeticLengthThicknessFeature.

(** The working state of the feature object. *)
Record t : Type := mk {
  geodetic_length : double;
  thickness : double
}.

(** [calculate (LR& r)].
    [roiArea] and [roiPerimeter] are [size_t]; the products and quotients
    of [roiPerimeter] are therefore unsigned 64-bit integer operations, and
    only their results are converted to [double]. *)
Definition calculate (r : LR) (self : t) : option t :=
  let roiArea := wrap_size_t (aux_area r) in
  p0 ← fvals r PERIMETER !! 0%nat;
  roiPerimeter ← size_t_of_double p0;
  let SqRootTmp :=
    (double_of_Z (wrap_size_t (roiPerimeter * roiPerimeter) / 16)
     - double_of_Z roiArea)%float in
  (* Make sure value under SqRootTmp is always positive *)
  let SqRootTmp := if (SqRootTmp <? 0)%float then 0%float else SqRootTmp in
  let gl := (double_of_Z (roiPerimeter / 4) + sqrt SqRootTmp)%float in
  let th := (double_of_Z (roiPerimeter / 2) - gl)%float in
  Some {| geodetic_length := gl; thickness := th |}.

(** [osized_calculate (LR& r, ImageLoader&)]: the loader is not used. *)
Definition osized_calculate {ImageLoader : Type}
    (r : LR) (_ : ImageLoader) (self : t) : option t :=
  calculate r self.

(** [save_value]: both results go to element 0 of their feature's vector;
    subscripting an empty vector is undefined. *)
Definition save_value (self : t) (fv : AvailableFeatures → list double)
    : option (AvailableFeatures → list double) :=
  _ ← fv GEODETIC_LENGTH !! 0%nat;
  _ ← fv THICKNESS !! 0%nat;
  Some (λ f, match f with
             | GEODETIC_LENGTH => <[0%nat := geodetic_length self]> (fv f)
             | THICKNESS => <[0%nat := thickness self]> (fv f)
             | _ => fv f
             end).

(** [osized_add_online_pixel (size_t x, size_t y, uint32_t intensity) {}]:
    the body is empty. *)
Definition osized_add_online_pixel (x y intensity : Z) (self : t) : t := self.

(** The constructor's declarations: [provide_features] and
    [add_dependencies]. *)
Definition provided_features : list AvailableFeatures :=
  [GEODETIC_LENGTH; THICKNESS].
Definition dependencies : list AvailableFeatures :=
  [AREA_PIXELS_COUNT; PERIMETER].

End GeodeticLengthThicknessFeature.

Module GLT := GeodeticLengthThicknessFeature.

(** A record holding just an area and a perimeter. *)
Definition roi_of (area : Z) (perimeter : double) : LR :=
  {| aux_area := area;
     fvals := λ f, match f with PERIMETER => [perimeter] | _ => [0%float] end;
     bad_data := false |}.

Definition glt0 : GLT.t := GLT.mk 0 0.

(** ** Counted loops in the error monad *)

(** [for (int i = lo; i < hi; i++) body]: [body] reads the index and the
    loop-carried state and may be undefined. *)
Fixpoint for_steps {A} (body : Z → A → option A) (n : nat) (i : Z) (a : A)
    : option A :=
  match n with
  | O => Some a
  | S n' => a' ← body i a; for_steps body n' (i + 1) a'
  end.

Definition for_range {A} (lo hi : Z) (body : Z → A → option A) (a : A)
    : option A :=
  for_steps body (Z.to_nat (hi - lo)) lo a.

(** Range-based [for (auto& z : Zs)] with a loop-carried state. *)
Fixpoint for_each {A B} (body : B → A → option A) (l : list B) (a : A)
    : option A :=
  match l with
  | [] => Some a
  | z :: l' => a' ← body z a; for_each body l' a'
  end.

(** ** The pixel matrix *)

(** Modelled from the spec: the declarations of [ImageMatrix] and [pixData]
    (image_matrix.h) are not among the sources.  The spec gives a dense
    pixel matrix with an image height and width, pixel access by position
    and a bounds predicate [safe (row, col)] that rules out out-of-range
    neighbour reads.  Pixels are stored row by row; a read outside the
    storage is an error. *)
Record ImageMatrix : Type := mkImageMatrix {
  height : Z;
  width : Z;
  ReadablePixels : list Z
}.

(** Modelled from the spec: [safe (row, col)], the bounds predicate of the
    matrix (its definition is not among the sources). *)
Definition safe (D : ImageMatrix) (row col : Z) : bool :=
  bool_decide (0 ≤ row < height D ∧ 0 ≤ col < width D).

(** Modelled from the spec: [D (row, col)], pixel access by position (the
    definition of the operator is not among the sources); a read outside the
    storage is an error. *)
Definition pixel (D : ImageMatrix) (row col : Z) : option Z :=
  if decide (0 ≤ row * width D + col)
  then ReadablePixels D !! Z.to_nat (row * width D + col)
  else None.

(** A matrix as the loader builds it: [height * width] cells.  (A cell is a
    [PixIntens], 32-bit unsigned; cf. the [uint32_t intensity] of
    [osized_add_online_pixel].) *)
Record wf_matrix (D : ImageMatrix) : Prop := {
  wf_height : 0 ≤ height D;
  wf_width : 0 ≤ width D;
  wf_cells : Z.of_nat (length (ReadablePixels D)) = height D * width D
}.

(** ** NGTDM_features *)

Module NGTDM_features.

Definition BAD_ROI_FVAL : double := 0%float.

(** The members of the feature object. *)
Record t : Type := mk {
  bad_roi_data : bool;
  Ng : Z;
  Ngp : Z;
  Nvp : Z;
  P : list double;
  S : list double;
  N : list Z
}.

(** [using AveNeighborhoodInte = std::pair<PixIntens, double>] *)
Definition AveNeighborhoodInte : Type := Z * double.

(** One [if (D.safe(r, c)) { neigsI += D(r, c); nd++; }] block.
    [neigsI] is a [PixIntens], so the sum wraps at 2^32. *)
Definition add_neighbor (D : ImageMatrix) (r c : Z) (acc : Z * Z)
    : option (Z * Z) :=
  if safe D r c
  then v ← pixel D r c; Some (wrap_uint32 (acc.1 + v), acc.2 + 1)
  else Some acc.

(** The eight blocks, in the order of the source; yields
    [(neigsI, nd)] as they stand before [neigsI /= nd]. *)
Definition neighborhood (D : ImageMatrix) (row col : Z) : option (Z * Z) :=
  a ← add_neighbor D (row - 1) col (0, 0);       (* North *)
  a ← add_neighbor D (row - 1) (col + 1) a;      (* North-East *)
  a ← add_neighbor D row (col + 1) a;            (* East *)
  a ← add_neighbor D (row + 1) (col + 1) a;      (* South-East *)
  a ← add_neighbor D (row + 1) col a;            (* South *)
  a ← add_neighbor D (row + 1) (col - 1) a;      (* South-West *)
  a ← add_neighbor D row (col - 1) a;            (* West *)
  add_neighbor D (row - 1) (col - 1) a.          (* North-West *)

(** The body of the scan at [(row, col)]; the loop carries [Z] and [U]. *)
Definition scan_pixel (D : ImageMatrix) (row col : Z)
    (st : list AveNeighborhoodInte * gset Z)
    : option (list AveNeighborhoodInte * gset Z) :=
  pi ← pixel D row col;
  if decide (pi = 0) then Some st
  else
    a ← neighborhood D row col;
    (* neigsI /= nd : unsigned integer division, undefined for nd = 0 *)
    if decide (a.2 = 0) then None
    else
      let neigsI := a.1 / a.2 in
      Some (st.1 ++ [(pi, double_of_Z neigsI)], {[pi]} ∪ st.2).

(** "Gather zones": the two nested loops over the matrix. *)
Definition gather_zones (D : ImageMatrix)
    : option (list AveNeighborhoodInte * gset Z) :=
  for_range 0 (height D)
    (λ row, for_range 0 (width D) (λ col, scan_pixel D row col))
    ([], ∅).

(** [std::find (I.begin(), I.end(), x) - I.begin()]: the position of the
    first occurrence, or the length when there is none. *)
Fixpoint find_index (x : Z) (I : list Z) : nat :=
  match I with
  | [] => 0%nat
  | y :: I' => if decide (y = x) then 0%nat else Datatypes.S (find_index x I')
  end.

(** The body of the loop "Calculate N and S", statement by statement.
    [int col = z.second] converts the recorded [double] to [int]: [col] is
    not read afterwards, but the conversion is undefined when the value does
    not fit an [int].  [N[row]++] and [Nvp++] are increments of [int]
    counters (like [Ng], which bounds the [int] loops), undefined when they
    overflow; the subscripts of [N] and [S] are unchecked. *)
Definition tally_zone (I : list Z) (z : AveNeighborhoodInte) (self : t)
    : option t :=
  (* row *)
  let row := find_index z.1 I in
  (* col *)
  col ← int_of_double z.2;
  (* increment *)
  n ← N self !! row;
  n ← int_checked (n + 1);
  (* --S *)
  let pi := z.1 in
  let aveNeigI := z.2 in
  s ← S self !! row;
  (* --Nvp *)
  nvp ← (if (0 <? aveNeigI)%float then int_checked (Nvp self + 1)
         else Some (Nvp self));
  Some {| bad_roi_data := bad_roi_data self;
          Ng := Ng self; Ngp := Ngp self;
          Nvp := nvp;
          P := P self;
          S := <[row := (s + fabs (double_of_Z pi - aveNeigI))%float]> (S self);
          N := <[row := n]> (N self) |}.

(** The body of the loop "Calculate P". *)
Definition fill_P (im : ImageMatrix) (i : Z) (self : t) : option t :=
  cells ← int_checked (height im * width im);
  _ ← P self !! Z.to_nat i;
  Some {| bad_roi_data := bad_roi_data self;
          Ng := Ng self; Ngp := Ngp self; Nvp := Nvp self;
          P := <[Z.to_nat i := (double_of_Z (Ng self) / double_of_Z cells)%float]>
                 (P self);
          S := S self; N := N self |}.

(** [initialize (int minI, int maxI, const ImageMatrix& im)].
    [Ng] bounds the [int] loops below, so a count of gray levels is taken to
    fit an [int]; [im.height * im.width] is an [int] product. *)
Definition initialize (minI maxI : Z) (im : ImageMatrix) (self : t)
    : option t :=
  if decide (minI = maxI) then
    Some {| bad_roi_data := true;
            Ng := Ng self; Ngp := Ngp self; Nvp := Nvp self;
            P := P self; S := S self; N := N self |}
  else
    ZU ← gather_zones im;
    let Zs := ZU.1 in
    let U := ZU.2 in
    ng ← int_checked (Z.of_nat (size U));
    let self :=
      {| bad_roi_data := bad_roi_data self;
         Ng := ng; Ngp := ng; Nvp := Nvp self;
         P := resize (Z.to_nat ng) 0%float (P self);
         S := resize (Z.to_nat ng) 0%float (S self);
         N := resize (Z.to_nat ng) 0 (N self) |} in
    let I := merge_sort Z.le (elements U) in
    self ← for_each (tally_zone I) Zs self;
    for_range 0 (Ng self) (fill_P im) self.

(** [P[i]], [S[i]] for an [int] index. *)
Definition sub (v : list double) (i : Z) : option double := v !! Z.to_nat i.

(** Coarseness *)
Definition calc_Coarseness (self : t) : option double :=
  if bad_roi_data self then Some BAD_ROI_FVAL
  else
    sum ← for_range 0 (Ng self)
             (λ i sum, p ← sub (P self) i; s ← sub (S self) i;
                       Some (sum + p * s)%float) 0%float;
    Some (1 / sum)%float.

(** Contrast *)
Definition calc_Contrast (self : t) : option double :=
  if bad_roi_data self then Some BAD_ROI_FVAL
  else
    sum ← for_range 0 (Ng self) (λ i,
             for_range 0 (Ng self) (λ j sum,
               pi ← sub (P self) i; pj ← sub (P self) j;
               let tmp := (pi * pj * double_of_Z ((i + 1) - (j + 1))
                                   * double_of_Z ((i + 1) - (j + 1)))%float in
               Some (sum + tmp)%float)) 0%float;
    Ngp_p2 ← (if decide (Ngp self > 1)
              then int_checked (Ngp self * (Ngp self - 1))
              else Some (Ngp self));
    let term1 := (sum / double_of_Z Ngp_p2)%float in
    sum ← for_range 0 (Ng self)
             (λ i sum, s ← sub (S self) i; Some (sum + s)%float) 0%float;
    let term2 := (sum / double_of_Z (Ngp self))%float in
    Some (term1 * term2)%float.

(** Busyness *)
Definition calc_Busyness (self : t) : option double :=
  if bad_roi_data self then Some BAD_ROI_FVAL
  else if decide (Ngp self = 1) then Some 0%float
  else
    sum1 ← for_range 0 (Ng self)
              (λ i sum1, p ← sub (P self) i; s ← sub (S self) i;
                         Some (sum1 + p * s)%float) 0%float;
    sum2 ← for_range 0 (Ng self) (λ i,
              for_range 0 (Ng self) (λ j sum2,
                pi ← sub (P self) i; pj ← sub (P self) j;
                let tmp := (pi * double_of_Z i - pj * double_of_Z j)%float in
                Some (sum2 + fabs tmp)%float)) 0%float;
    Some (sum1 / sum2)%float.

(** Complexity *)
Definition calc_Complexity (self : t) : option double :=
  if bad_roi_data self then Some BAD_ROI_FVAL
  else
    sum ← for_range 0 (Ng self) (λ i,
             for_range 0 (Ng self) (λ j sum,
               pi ← sub (P self) i; si ← sub (S self) i;
               pj ← sub (P self) j; sj ← sub (S self) j;
               let tmp := (double_of_Z (Z.abs ((i + 1) - (j + 1)))
                           * (pi * si + pj * sj) / (pi + pj))%float in
               Some (sum + tmp)%float)) 0%float;
    Some (sum / double_of_Z (Nvp self))%float.

(** Strength *)
Definition calc_Strength (self : t) : option double :=
  if bad_roi_data self then Some BAD_ROI_FVAL
  else
    sum1 ← for_range 0 (Ng self) (λ i,
              for_range 0 (Ng self) (λ j sum1,
                pi ← sub (P self) i; pj ← sub (P self) j;
                let tmp := ((pi + pj) * double_of_Z ((i + 1) - (j + 1))
                                      * double_of_Z ((i + 1) - (j + 1)))%float in
                Some (sum1 + tmp)%float)) 0%float;
    sum2 ← for_range 0 (Ng self)
              (λ i sum2, s ← sub (S self) i; Some (sum2 + s)%float) 0%float;
    Some (sum1 / sum2)%float.

(** A freshly constructed object. *)
Definition fresh : t :=
  {| bad_roi_data := false; Ng := 0; Ngp := 0; Nvp := 0;
     P := []; S := []; N := [] |}.

End NGTDM_features.

Module NGTDM := NGTDM_features.

(** ** The formulas the specification states *)

Module Spec.

(** Geodetic length and thickness from area [A] and perimeter [L], read as
    the specification writes them: [t = L²/16 − A] clamped at 0,
    [geodetic_length = L/4 + sqrt t], [thickness = L/2 − geodetic_length],
    all in [double]. *)
Definition radicand (A L : double) : double :=
  let t := (L * L / 16 - A)%float in
  if (t <? 0)%float then 0%float else t.

Definition geodetic_length (A L : double) : double :=
  (L / 4 + sqrt (radicand A L))%float.

Definition thickness (A L : double) : double :=
  (L / 2 - geodetic_length A L)%float.

(** [Σᵢ f i] for [i] in [0 .. n-1], summed in index order from 0. *)
Definition Sigma (n : nat) (f : nat → double) : double :=
  foldl (λ acc i, (acc + f i)%float) 0%float (seq 0 n).

(** [Σᵢ Σⱼ f i j] for [i], [j] in [0 .. n-1]: one sum over all index
    pairs, [i] outermost. *)
Definition Sigma2 (n : nat) (f : nat → nat → double) : double :=
  foldl (λ acc ij, (acc + f ij.1 ij.2)%float) 0%float
        (i ← seq 0 n; j ← seq 0 n; [(i, j)]).

(** Entry [i] of an array, and an index or a rank distance as a [double].
    A product of several factors is taken left to right. *)
Definition elt (v : list double) (i : nat) : double := default 0%float (v !! i).
Definition idx (i : nat) : double := double_of_Z (Z.of_nat i).
Definition dist (i j : nat) : double := double_of_Z (Z.of_nat i - Z.of_nat j).
Definition absdist (i j : nat) : double :=
  double_of_Z (Z.abs (Z.of_nat i - Z.of_nat j)).

Section Formulas.
Variable self : NGTDM.t.
Let n := Z.to_nat (NGTDM.Ng self).
Let P := elt (NGTDM.P self).
Let S := elt (NGTDM.S self).

(** [Σᵢ P[i]S[i] / Σᵢ Σⱼ |P[i]·i − P[j]·j|] *)
Definition Busyness : double :=
  (Sigma n (λ i, P i * S i) /
   Sigma2 n (λ i j, fabs (P i * idx i - P j * idx j)))%float.

(** The normalizer of the first term of Contrast: [Ngp·(Ngp−1)], or
    [Ngp] itself when [Ngp ≤ 1]. *)
Definition Contrast_normalizer : Z :=
  if decide (NGTDM.Ngp self ≤ 1) then NGTDM.Ngp self
  else NGTDM.Ngp self * (NGTDM.Ngp self - 1).

(** [1 / Σᵢ P[i]·S[i]] *)
Definition Coarseness : double :=
  (1 / Sigma n (λ i, P i * S i))%float.

(** [Σᵢ Σⱼ |i−j|·(P[i]S[i] + P[j]S[j]) / (P[i]+P[j]) / Nvp] *)
Definition Complexity : double :=
  (Sigma2 n (λ i j, absdist i j * (P i * S i + P j * S j) / (P i + P j))
   / double_of_Z (NGTDM.Nvp self))%float.

(** [Σᵢ Σⱼ (P[i]+P[j])(i−j)² / Σᵢ S[i]] *)
Definition Strength : double :=
  (Sigma2 n (λ i j, (P i + P j) * dist i j * dist i j) / Sigma n S)%float.

(** [[Σᵢ Σⱼ P[i]P[j](i−j)² / normalizer] × [Σᵢ S[i] / Ngp]] *)
Definition Contrast : double :=
  (Sigma2 n (λ i j, P i * P j * dist i j * dist i j)
     / double_of_Z Contrast_normalizer
   * (Sigma n S / double_of_Z (NGTDM.Ngp self)))%float.
End Formulas.

(** The eight 8-connected neighbour offsets [(Δrow, Δcol)]. *)
Definition neighbor_offsets : list (Z * Z) :=
  [(-1, 0); (-1, 1); (0, 1); (1, 1); (1, 0); (1, -1); (0, -1); (-1, -1)].

(** The intensities of the neighbours of [(row, col)] that lie inside the
    matrix. *)
Definition neighbors_along (D : ImageMatrix) (row col : Z)
    (ds : list (Z * Z)) : list Z :=
  omap (λ d, if safe D (row + d.1) (col + d.2)
             then pixel D (row + d.1) (col + d.2) else None) ds.

Definition inbounds_neighbors (D : ImageMatrix) (row col : Z) : list Z :=
  neighbors_along D row col neighbor_offsets.

Definition sum_list (l : list Z) : Z := foldr Z.add 0 l.

(** What the scan records for the cell [(row, col)]: nothing for a
    background cell, else the pair of its intensity and the quotient of
    the (32-bit) neighbour sum by the number of in-bounds neighbours. *)
Definition zone_at (D : ImageMatrix) (row col : Z)
    : list NGTDM.AveNeighborhoodInte :=
  match pixel D row col with
  | Some pi =>
      if decide (pi = 0) then []
      else
        let ns := inbounds_neighbors D row col in
        [(pi, double_of_Z (wrap_uint32 (sum_list ns) / Z.of_nat (length ns)))]
  | None => []
  end.

(** The cells in scan order, by storage index [k = row * width + col]. *)
Definition zones_upto (D : ImageMatrix) (k : nat)
    : list NGTDM.AveNeighborhoodInte :=
  i ← seq 0 k;
  zone_at D (Z.of_nat i / width D) (Z.of_nat i mod width D).

Definition zones (D : ImageMatrix) : list NGTDM.AveNeighborhoodInte :=
  zones_upto D (length (ReadablePixels D)).

(** The distinct non-zero intensities of the matrix. *)
Definition intensities_upto (D : ImageMatrix) (k : nat) : gset Z :=
  list_to_set (filter (λ v, v ≠ 0) (take k (ReadablePixels D))).

Definition intensities (D : ImageMatrix) : gset Z :=
  list_to_set (filter (λ v, v ≠ 0) (ReadablePixels D)).

(** The exact rational value of a finite [double]. *)
Definition Q_of_double (d : double) : option Q :=
  match Prim2SF d with
  | S754_zero _ => Some (Qmake 0 1)
  | S754_finite s m e =>
      Some (Qmult (Qmake (if s then Z.neg m else Z.pos m) 1)
                  (Qpower (Qmake 2 1) e))
  | S754_infinity _ | S754_nan => None
  end.

(** [|d − target| < tol], over the rationals. *)
Definition within (d : double) (target tol : Q) : Prop :=
  match Q_of_double d with
  | Some q => Qlt (Qabs (Qminus q target)) tol
  | None => False
  end.

End Spec.

(** The neighbourhood blocks of [NGTDM_features::initialize], visited along
    a list of offsets. *)
Definition visit (D : ImageMatrix) (row col : Z) (ds : list (Z * Z))
    (acc : Z * Z) : option (Z * Z) :=
  for_each (λ d, NGTDM.add_neighbor D (row + d.1) (col + d.2)) ds acc.

(** ** The batch worker of the geodetic feature *)

Section Batch.

(** The subscript of [ptrLabelData] (a [std::unordered_map]) inserts a
    value-initialised record for a missing key; the constructor of [LR] is
    not among the sources, so that record is a parameter, and so is the
    state of a freshly constructed feature object. *)
Variable LR_default : LR.
Variable glt_new : GLT.t.

(** The body of the loop once [r] is bound: skip a bad record, else
    [calculate] and [save_value] into the record's own table. *)
Definition process_record (r : LR) : option LR :=
  if has_bad_data r then Some r
  else
    glt ← GLT.calculate r glt_new;
    fv ← GLT.save_value glt (fvals r);
    Some {| aux_area := aux_area r; fvals := fv; bad_data := bad_data r |}.

(** [LR& r] bound to the table entry of [lab], then the body: the record is
    updated in place in the table. *)
Definition process_label (lab : Z) (data : gmap Z LR) : option (gmap Z LR) :=
  r' ← process_record (default LR_default (data !! lab));
  Some (<[lab := r']> data).

(** [parallel_process_1_batch (start, end, ptrLabels, ptrLabelData)];
    a subscript of [ptrLabels] outside the vector is undefined. *)
Definition parallel_process_1_batch (start end_ : Z) (ptrLabels : list Z)
    (ptrLabelData : gmap Z LR) : option (gmap Z LR) :=
  for_range start end_
    (λ i data, lab ← ptrLabels !! Z.to_nat i; process_label lab data)
    ptrLabelData.

End Batch.

(** The labels a batch visits. *)
Definition batch_labels (start end_ : Z) (ptrLabels : list Z) : list Z :=
  take (Z.to_nat (end_ - start)) (drop (Z.to_nat start) ptrLabels).

(** ** What the fill of the NGTDM arrays computes *)

(** The vector [I] of [initialize]: the distinct non-zero intensities in
    ascending order. *)
Definition levels (D : ImageMatrix) : list Z :=
  merge_sort Z.le (elements (Spec.intensities D)).

(** How often a value occurs in a list. *)
Definition occurrences (x : Z) (l : list Z) : nat :=
  length (filter (λ v, v = x) l).

(** The zones recorded for pixels of intensity [x], in scan order; the zones
    whose index in [I] is [k]; the zones whose recorded neighbourhood value
    is positive. *)
Definition zones_of (x : Z) (Zs : list NGTDM.AveNeighborhoodInte)
    : list NGTDM.AveNeighborhoodInte :=
  filter (λ z, z.1 = x) Zs.

Definition zones_at_index (I : list Z) (k : nat)
    (Zs : list NGTDM.AveNeighborhoodInte) : list NGTDM.AveNeighborhoodInte :=
  filter (λ z, NGTDM.find_index z.1 I = k) Zs.

Definition positive_zones (Zs : list NGTDM.AveNeighborhoodInte)
    : list NGTDM.AveNeighborhoodInte :=
  filter (λ z, (0 <? z.2)%float = true) Zs.

(** [s + |pi − ave| + ...] over a list of zones, in order. *)
Definition abs_diff_sum (s : double) (Zs : list NGTDM.AveNeighborhoodInte)
    : double :=
  foldl (λ acc z, (acc + fabs (double_of_Z z.1 - z.2))%float) s Zs.

(** ** Sample inputs *)

Definition im_2x2 : ImageMatrix := mkImageMatrix 2 2 [5; 1; 1; 0].
Definition im_2x3 : ImageMatrix := mkImageMatrix 2 3 [5; 1; 7; 1; 0; 5].

(** The state [initialize 1 7 im_2x3] leaves in a fresh object. *)
Definition ngtdm_2x3 : NGTDM.t :=
  {| NGTDM.bad_roi_data := false;
     NGTDM.Ng := 3; NGTDM.Ngp := 3; NGTDM.Nvp := 4;
     NGTDM.P := [0.5; 0.5; 0.5]%float;
     NGTDM.S := [3; 8; 5]%float;
     NGTDM.N := [2; 2; 1] |}.

(** The state a second [initialize 1 7 im_2x3] makes of it. *)
Definition ngtdm_2x3_twice : NGTDM.t :=
  {| NGTDM.bad_roi_data := false;
     NGTDM.Ng := 3; NGTDM.Ngp := 3; NGTDM.Nvp := 8;
     NGTDM.P := [0.5; 0.5; 0.5]%float;
     NGTDM.S := [6; 16; 10]%float;
     NGTDM.N := [4; 4; 2] |}.

(** A state with a single gray level. *)
Definition ngtdm_single_level : NGTDM.t :=
  {| NGTDM.bad_roi_data := false;
     NGTDM.Ng := 1; NGTDM.Ngp := 1; NGTDM.Nvp := 2;
     NGTDM.P := [0.25]%float; NGTDM.S := [6]%float; NGTDM.N := [2] |}.

(** A record flagged bad, and a label table with one good and one bad
    record. *)
Definition roi_bad : LR :=
  {| aux_area := 4; fvals := λ _, [0%float]; bad_data := true |}.
Definition sample_table : gmap Z LR := {[ 1 := roi_of 6 10; 2 := roi_bad ]}.
Definition sample_labels : list Z := [1; 2; 1].

(** The table the batch over all three sample labels returns. *)
Definition sample_table_done : gmap Z LR :=
  Eval vm_compute in
    default ∅ (parallel_process_1_batch roi_bad glt0 0 3 sample_labels
                 sample_table).

(** An object flagged bad, and what [initialize 1 7 im_2x3] makes of it; an
    all-background matrix. *)
Definition ngtdm_flagged : NGTDM.t :=
  {| NGTDM.bad_roi_data := true; NGTDM.Ng := 0; NGTDM.Ngp := 0;
     NGTDM.Nvp := 0; NGTDM.P := []; NGTDM.S := []; NGTDM.N := [] |}.
Definition ngtdm_2x3_flagged : NGTDM.t :=
  {| NGTDM.bad_roi_data := true;
     NGTDM.Ng := 3; NGTDM.Ngp := 3; NGTDM.Nvp := 4;
     NGTDM.P := [0.5; 0.5; 0.5]%float;
     NGTDM.S := [3; 8; 5]%float;
     NGTDM.N := [2; 2; 1] |}.
Definition im_blank : ImageMatrix := mkImageMatrix 2 2 [0; 0; 0; 0].
Definition im_3x3 : ImageMatrix :=
  mkImageMatrix 3 3 [1; 2; 3; 4; 5; 6; 7; 8; 9].

(** A state whose [P] is shorter than [Ng], and a state with 50000 gray
    levels. *)
Definition ngtdm_short : NGTDM.t :=
  {| NGTDM.bad_roi_data := false;
     NGTDM.Ng := 3; NGTDM.Ngp := 3; NGTDM.Nvp := 4;
     NGTDM.P := [0.5; 0.5]%float;
     NGTDM.S := [3; 8; 5]%float;
     NGTDM.N := [2; 2; 1] |}.
Definition ngtdm_many_levels : NGTDM.t :=
  {| NGTDM.bad_roi_data := false;
     NGTDM.Ng := 50000; NGTDM.Ngp := 50000; NGTDM.Nvp := 50000;
     NGTDM.P := replicate (Z.to_nat 50000) 0.5%float;
     NGTDM.S := replicate (Z.to_nat 50000) 1%float;
     NGTDM.N := replicate (Z.to_nat 50000) 1 |}.

(** An image of one row whose 50000 cells hold the intensities 1, 2, ...,
    50000. *)
Definition many_levels : list Z := Z.of_nat <$> seq 1 (Z.to_nat 50000).
Definition im_many_levels : ImageMatrix := mkImageMatrix 1 50000 many_levels.

(** ** Proof steps used more than once *)

(** Settle the loop at the head of a monadic sequence: show that it yields
    [v], then continue with the rest. *)
Ltac loop_yields v :=
  lazymatch goal with
  | |- (?m ≫= _) = _ =>
      let H := fresh "Hloop" in
      assert (m = Some v) as H; [ | rewrite H; clear H; simpl ]
  end.

(** Membership in a list given by its elements. *)
Ltac offset_listed :=
  by repeat first [apply list_elem_of_here | apply list_elem_of_further].

(** * Properties *)

(** ** Loops *)

Section Loops.
Context {A : Type}.

(** Total-correctness rule for a counted loop: an invariant that every
    iteration re-establishes, and that makes the body defined, holds on
    exit, and the loop is defined. *)
Lemma for_steps_inv (Inv : Z → A → Prop) (body : Z → A → option A) n i a :
  Inv i a →
  (∀ k b, i ≤ k < i + Z.of_nat n → Inv k b →
          ∃ b', body k b = Some b' ∧ Inv (k + 1) b') →
  ∃ a', for_steps body n i a = Some a' ∧ Inv (i + Z.of_nat n) a'.
Proof.
  revert i a. induction n as [|n IH]; intros i a Hi Hbody; simpl.
  - exists a. split; [done|]. by replace (i + Z.of_nat 0) with i by lia.
  - destruct (Hbody i a) as (b & -> & Hb); [lia|done|]. simpl.
    destruct (IH (i + 1) b) as (a' & -> & Ha'); [done| |].
    + intros k c Hk. apply Hbody. lia.
    + exists a'. split; [done|].
      by replace (i + Z.of_nat (Datatypes.S n)) with (i + 1 + Z.of_nat n) by lia.
Qed.

Lemma for_range_inv (Inv : Z → A → Prop) (body : Z → A → option A) lo hi a :
  lo ≤ hi → Inv lo a →
  (∀ k b, lo ≤ k < hi → Inv k b →
          ∃ b', body k b = Some b' ∧ Inv (k + 1) b') →
  ∃ a', for_range lo hi body a = Some a' ∧ Inv hi a'.
Proof.
  intros Hle Hlo Hbody. unfold for_range.
  destruct (for_steps_inv Inv body (Z.to_nat (hi - lo)) lo a)
    as (a' & Heq & Ha'); [done| |].
  - intros k b Hk. apply Hbody. lia.
  - exists a'. split; [done|].
    by replace (lo + Z.of_nat (Z.to_nat (hi - lo))) with hi in Ha' by lia.
Qed.

(** A loop whose body is a total step function is a left fold. *)
Lemma for_steps_fold (body : Z → A → option A) (step : nat → A → A) n i a :
  (∀ k b, (k < n)%nat → body (i + Z.of_nat k) b = Some (step k b)) →
  for_steps body n i a = Some (foldl (λ b k, step k b) a (seq 0 n)).
Proof.
  revert i a step. induction n as [|n IH]; intros i a step Hbody; [done|].
  simpl. specialize (Hbody 0%nat a) as H0.
  replace (i + Z.of_nat 0) with i in H0 by lia. rewrite H0 by lia. simpl.
  rewrite (IH (i + 1) (step 0%nat a) (λ k, step (Datatypes.S k))).
  - f_equal. rewrite <-(fmap_S_seq 0 n). by rewrite foldl_fmap.
  - intros k b Hk. rewrite <-Hbody by lia. f_equal. lia.
Qed.

Lemma for_range_fold (body : Z → A → option A) (step : nat → A → A) hi a :
  (∀ k b, (k < Z.to_nat hi)%nat → body (Z.of_nat k) b = Some (step k b)) →
  for_range 0 hi body a
  = Some (foldl (λ b k, step k b) a (seq 0 (Z.to_nat hi))).
Proof.
  intros Hbody. unfold for_range. rewrite Z.sub_0_r.
  apply for_steps_fold. intros k b Hk. by rewrite Z.add_0_l, Hbody.
Qed.

Lemma foldl_bind {B C} (f : A → C → A) (g : B → list C) (l : list B) a :
  foldl f a (l ≫= g) = foldl (λ b x, foldl f b (g x)) a l.
Proof.
  revert a. induction l as [|x l IH]; intros a; [done|].
  by rewrite bind_cons, foldl_app, IH.
Qed.
End Loops.

Section Sums.
Context {A : Type}.

Lemma foldl_pair_row {B C} (F : A → B * C → A) (x : B) (l2 : list C) a :
  foldl F a (l2 ≫= λ j, [(x, j)]) = foldl (λ b j, F b (x, j)) a l2.
Proof.
  revert a. induction l2 as [|y l2 IH]; intros a; [done|].
  rewrite bind_cons, foldl_app. simpl. by rewrite IH.
Qed.

Lemma foldl_pairs {B C} (F : A → B * C → A) (l1 : list B) (l2 : list C) a :
  foldl F a (i ← l1; j ← l2; [(i, j)])
  = foldl (λ b i, foldl (λ b j, F b (i, j)) b l2) a l1.
Proof.
  revert a. induction l1 as [|x l1 IH]; intros a; [done|].
  rewrite bind_cons, foldl_app, IH. simpl. by rewrite foldl_pair_row.
Qed.
End Sums.

Lemma Sigma2_nested n f :
  Spec.Sigma2 n f
  = foldl (λ b i, foldl (λ b j, (b + f i j)%float) b (seq 0 n)) 0%float (seq 0 n).
Proof. unfold Spec.Sigma2. by rewrite foldl_pairs. Qed.

Lemma sub_elt (v : list double) (k : nat) :
  (k < length v)%nat → NGTDM.sub v (Z.of_nat k) = Some (Spec.elt v k).
Proof.
  intros Hk. unfold NGTDM.sub, Spec.elt. rewrite Nat2Z.id.
  by destruct (lookup_lt_is_Some_2 v k Hk) as [x ->].
Qed.

(** A single loop over an array-indexed term is the specification's [Σ]. *)
Lemma single_loop_Sigma (hi : Z) (body : Z → double → option double)
    (f : nat → double) :
  (∀ k b, (k < Z.to_nat hi)%nat → body (Z.of_nat k) b = Some (b + f k)%float) →
  for_range 0 hi body 0%float = Some (Spec.Sigma (Z.to_nat hi) f).
Proof.
  intros Hbody. by rewrite (for_range_fold body (λ k b, (b + f k)%float)).
Qed.

(** A doubly nested loop with one accumulator is the specification's
    [Σ Σ]. *)
Lemma double_loop_Sigma2 (hi : Z) (body : Z → Z → double → option double)
    (f : nat → nat → double) :
  (∀ i j b, (i < Z.to_nat hi)%nat → (j < Z.to_nat hi)%nat →
            body (Z.of_nat i) (Z.of_nat j) b = Some (b + f i j)%float) →
  for_range 0 hi (λ i, for_range 0 hi (body i)) 0%float
  = Some (Spec.Sigma2 (Z.to_nat hi) f).
Proof.
  intros Hbody. rewrite Sigma2_nested.
  apply (for_range_fold _
           (λ i b, foldl (λ b j, (b + f i j)%float) b (seq 0 (Z.to_nat hi)))).
  intros i b Hi.
  apply (for_range_fold _ (λ j b, (b + f i j)%float)).
  intros j c Hj. by apply Hbody.
Qed.

(** ** Geodetic length and thickness *)

(** C9: the streaming entry point leaves exactly the working state that
    [calculate] leaves, whatever the loader. *)
Theorem osized_calculate_is_calculate
    {ImageLoader : Type} (r : LR) (loader : ImageLoader) (self : GLT.t) :
  GLT.osized_calculate r loader self = GLT.calculate r self.
Proof. reflexivity. Qed.

(** C5: area 100 and perimeter 40 give geodetic length 10.0 and thickness
    10.0 exactly; area 50 and perimeter 60 give values within 1e-3 of
    28.2288 and 1.7712. *)
Theorem calculate_worked_examples (self : GLT.t) :
  GLT.calculate (roi_of 100 40) self = Some (GLT.mk 10 10) ∧
  ∃ res, GLT.calculate (roi_of 50 60) self = Some res ∧
         Spec.within (GLT.geodetic_length res) (Qmake 282288 10000) (Qmake 1 1000) ∧
         Spec.within (GLT.thickness res) (Qmake 17712 10000) (Qmake 1 1000).
Proof.
  split; [by vm_compute|].
  eexists. split; [by vm_compute|]. split; by vm_compute.
Qed.

(** C1, at area 3 and perimeter 7: the two results add up to 3, the integer
    quotient of 7 by 2, and not to 7/2 = 3.5. *)
Theorem calculate_sum_odd_perimeter (self : GLT.t) :
  ∃ res, GLT.calculate (roi_of 3 7) self = Some res ∧
         (GLT.thickness res + GLT.geodetic_length res)%float = 3%float ∧
         (GLT.thickness res + GLT.geodetic_length res =? 7 / 2)%float = false.
Proof. eexists. split; [by vm_compute|]. split; by vm_compute. Qed.

(** C2, at area 6 and perimeter 10 (a 3-by-2 rectangle): the formula of the
    specification gives length 3 and thickness 2; [calculate], dividing the
    perimeter as an integer, gives length 2 and thickness 3. *)
Theorem calculate_rectangle_3x2 (self : GLT.t) :
  GLT.calculate (roi_of 6 10) self = Some (GLT.mk 2 3) ∧
  Spec.geodetic_length 6 10 = 3%float ∧
  Spec.thickness 6 10 = 2%float.
Proof. repeat split; by vm_compute. Qed.

(** The clamp at work: with area 100 and perimeter 4 the radicand
    [1 − 100] is negative, and the square-root term is 0. *)
Lemma calculate_clamped (self : GLT.t) :
  GLT.calculate (roi_of 100 4) self = Some (GLT.mk 1 1).
Proof. by vm_compute. Qed.

(** ** NGTDM: the derived scalars *)

(** C3: with [minI = maxI], [initialize] sets the bad-data flag and each of
    the five derived scalars then returns exactly 0.0. *)
Theorem initialize_degenerate (m : Z) (im : ImageMatrix) (self : NGTDM.t) :
  ∃ self', NGTDM.initialize m m im self = Some self' ∧
           NGTDM.bad_roi_data self' = true ∧
           NGTDM.calc_Coarseness self' = Some 0%float ∧
           NGTDM.calc_Contrast self' = Some 0%float ∧
           NGTDM.calc_Busyness self' = Some 0%float ∧
           NGTDM.calc_Complexity self' = Some 0%float ∧
           NGTDM.calc_Strength self' = Some 0%float.
Proof.
  unfold NGTDM.initialize. rewrite decide_True by done.
  eexists. split; [reflexivity|]. by repeat split.
Qed.

(** C6: [calc_Busyness] returns exactly 0.0 whenever [Ngp = 1], whatever [S]
    and [P] hold; otherwise, on data not flagged bad, it returns
    [Σᵢ P[i]S[i] / Σᵢ Σⱼ |P[i]·i − P[j]·j|], the sums running over the [Ng]
    entries the arrays hold. *)
Theorem calc_Busyness_cases (self : NGTDM.t) :
  (NGTDM.Ngp self = 1 → NGTDM.calc_Busyness self = Some 0%float) ∧
  (NGTDM.bad_roi_data self = false → NGTDM.Ngp self ≠ 1 →
   (Z.to_nat (NGTDM.Ng self) ≤ length (NGTDM.P self))%nat →
   (Z.to_nat (NGTDM.Ng self) ≤ length (NGTDM.S self))%nat →
   NGTDM.calc_Busyness self = Some (Spec.Busyness self)).
Proof.
  unfold NGTDM.calc_Busyness. split.
  - intros ->. by destruct (NGTDM.bad_roi_data self).
  - intros -> Hne HP HS. rewrite decide_False by done.
    loop_yields
      (Spec.Sigma (Z.to_nat (NGTDM.Ng self))
         (λ i, Spec.elt (NGTDM.P self) i * Spec.elt (NGTDM.S self) i)%float).
    { apply single_loop_Sigma. intros k b Hk. by rewrite !sub_elt by lia. }
    loop_yields
      (Spec.Sigma2 (Z.to_nat (NGTDM.Ng self))
         (λ i j, fabs (Spec.elt (NGTDM.P self) i * Spec.idx i
                       - Spec.elt (NGTDM.P self) j * Spec.idx j))%float).
    { apply double_loop_Sigma2. intros i j b Hi Hj.
      by rewrite !sub_elt by lia. }
    done.
Qed.

Lemma calc_Busyness_cases_witness :
  NGTDM.calc_Busyness ngtdm_single_level = Some 0%float ∧
  NGTDM.calc_Busyness ngtdm_2x3 = Some (Spec.Busyness ngtdm_2x3).
Proof.
  split.
  - apply (proj1 (calc_Busyness_cases ngtdm_single_level)). reflexivity.
  - apply (proj2 (calc_Busyness_cases ngtdm_2x3));
      [reflexivity | simpl; lia | simpl; lia | simpl; lia].
Defined.

(** On data not flagged bad whose arrays [P] and [S] hold [Ng] entries and
    whose normalizer fits an [int], [calc_Contrast] returns
    [[Σᵢ Σⱼ P[i]P[j](i−j)² / (Ngp·(Ngp−1))] × [Σᵢ S[i] / Ngp]], where for
    [Ngp ≤ 1] the normalizer [Ngp·(Ngp−1)] is replaced by [Ngp]. *)
Theorem calc_Contrast_formula (self : NGTDM.t) :
  NGTDM.bad_roi_data self = false →
  (Z.to_nat (NGTDM.Ng self) ≤ length (NGTDM.P self))%nat →
  (Z.to_nat (NGTDM.Ng self) ≤ length (NGTDM.S self))%nat →
  INT_MIN ≤ Spec.Contrast_normalizer self ≤ INT_MAX →
  NGTDM.calc_Contrast self = Some (Spec.Contrast self).
Proof.
  intros Hbad HP HS Hnorm. unfold NGTDM.calc_Contrast. rewrite Hbad.
  loop_yields
    (Spec.Sigma2 (Z.to_nat (NGTDM.Ng self))
       (λ i j, Spec.elt (NGTDM.P self) i * Spec.elt (NGTDM.P self) j
               * Spec.dist i j * Spec.dist i j)%float).
  { apply double_loop_Sigma2. intros i j b Hi Hj.
    rewrite !sub_elt by lia. simpl. unfold Spec.dist.
    by replace (Z.of_nat i + 1 - (Z.of_nat j + 1))
      with (Z.of_nat i - Z.of_nat j) by lia. }
  assert ((if decide (NGTDM.Ngp self > 1)
           then int_checked (NGTDM.Ngp self * (NGTDM.Ngp self - 1))
           else Some (NGTDM.Ngp self))
          = Some (Spec.Contrast_normalizer self)) as ->.
  { unfold Spec.Contrast_normalizer in *. unfold int_checked.
    repeat case_decide; (done || lia). }
  simpl.
  loop_yields (Spec.Sigma (Z.to_nat (NGTDM.Ng self)) (Spec.elt (NGTDM.S self))).
  { apply single_loop_Sigma. intros k b Hk. by rewrite !sub_elt by lia. }
  done.
Qed.

Lemma calc_Contrast_formula_witness :
  NGTDM.calc_Contrast ngtdm_2x3 = Some (Spec.Contrast ngtdm_2x3) ∧
  NGTDM.calc_Contrast ngtdm_single_level
  = Some (Spec.Contrast ngtdm_single_level).
Proof.
  split.
  - apply (calc_Contrast_formula ngtdm_2x3);
      [reflexivity | simpl; lia | simpl; lia | by vm_compute].
  - apply (calc_Contrast_formula ngtdm_single_level);
      [reflexivity | simpl; lia | simpl; lia | by vm_compute].
Defined.

(** [calc_Coarseness] on data not flagged bad is [1 / Σᵢ P[i]·S[i]]. *)
Theorem calc_Coarseness_formula (self : NGTDM.t) :
  NGTDM.bad_roi_data self = false →
  (Z.to_nat (NGTDM.Ng self) ≤ length (NGTDM.P self))%nat →
  (Z.to_nat (NGTDM.Ng self) ≤ length (NGTDM.S self))%nat →
  NGTDM.calc_Coarseness self = Some (Spec.Coarseness self).
Proof.
  intros Hbad HP HS. unfold NGTDM.calc_Coarseness. rewrite Hbad.
  loop_yields
    (Spec.Sigma (Z.to_nat (NGTDM.Ng self))
       (λ i, Spec.elt (NGTDM.P self) i * Spec.elt (NGTDM.S self) i)%float).
  { apply single_loop_Sigma. intros k b Hk. by rewrite !sub_elt by lia. }
  done.
Qed.

Lemma calc_Coarseness_formula_witness :
  NGTDM.calc_Coarseness ngtdm_2x3 = Some (Spec.Coarseness ngtdm_2x3).
Proof.
  apply (calc_Coarseness_formula ngtdm_2x3);
    [reflexivity | simpl; lia | simpl; lia].
Defined.

(** [calc_Complexity] on data not flagged bad is
    [Σᵢ Σⱼ |i−j|·(P[i]S[i] + P[j]S[j]) / (P[i]+P[j]) / Nvp]. *)
Theorem calc_Complexity_formula (self : NGTDM.t) :
  NGTDM.bad_roi_data self = false →
  (Z.to_nat (NGTDM.Ng self) ≤ length (NGTDM.P self))%nat →
  (Z.to_nat (NGTDM.Ng self) ≤ length (NGTDM.S self))%nat →
  NGTDM.calc_Complexity self = Some (Spec.Complexity self).
Proof.
  intros Hbad HP HS. unfold NGTDM.calc_Complexity. rewrite Hbad.
  loop_yields
    (Spec.Sigma2 (Z.to_nat (NGTDM.Ng self))
       (λ i j, Spec.absdist i j
               * (Spec.elt (NGTDM.P self) i * Spec.elt (NGTDM.S self) i
                  + Spec.elt (NGTDM.P self) j * Spec.elt (NGTDM.S self) j)
               / (Spec.elt (NGTDM.P self) i + Spec.elt (NGTDM.P self) j))%float).
  { apply double_loop_Sigma2. intros i j b Hi Hj.
    rewrite !sub_elt by lia. simpl. unfold Spec.absdist.
    by replace (Z.of_nat i + 1 - (Z.of_nat j + 1))
      with (Z.of_nat i - Z.of_nat j) by lia. }
  done.
Qed.

Lemma calc_Complexity_formula_witness :
  NGTDM.calc_Complexity ngtdm_2x3 = Some (Spec.Complexity ngtdm_2x3).
Proof.
  apply (calc_Complexity_formula ngtdm_2x3);
    [reflexivity | simpl; lia | simpl; lia].
Defined.

(** [calc_Strength] on data not flagged bad is
    [Σᵢ Σⱼ (P[i]+P[j])(i−j)² / Σᵢ S[i]]. *)
Theorem calc_Strength_formula (self : NGTDM.t) :
  NGTDM.bad_roi_data self = false →
  (Z.to_nat (NGTDM.Ng self) ≤ length (NGTDM.P self))%nat →
  (Z.to_nat (NGTDM.Ng self) ≤ length (NGTDM.S self))%nat →
  NGTDM.calc_Strength self = Some (Spec.Strength self).
Proof.
  intros Hbad HP HS. unfold NGTDM.calc_Strength. rewrite Hbad.
  loop_yields
    (Spec.Sigma2 (Z.to_nat (NGTDM.Ng self))
       (λ i j, (Spec.elt (NGTDM.P self) i + Spec.elt (NGTDM.P self) j)
               * Spec.dist i j * Spec.dist i j)%float).
  { apply double_loop_Sigma2. intros i j b Hi Hj.
    rewrite !sub_elt by lia. simpl. unfold Spec.dist.
    by replace (Z.of_nat i + 1 - (Z.of_nat j + 1))
      with (Z.of_nat i - Z.of_nat j) by lia. }
  loop_yields (Spec.Sigma (Z.to_nat (NGTDM.Ng self)) (Spec.elt (NGTDM.S self))).
  { apply single_loop_Sigma. intros k b Hk. by rewrite !sub_elt by lia. }
  done.
Qed.

Lemma calc_Strength_formula_witness :
  NGTDM.calc_Strength ngtdm_2x3 = Some (Spec.Strength ngtdm_2x3).
Proof.
  apply (calc_Strength_formula ngtdm_2x3);
    [reflexivity | simpl; lia | simpl; lia].
Defined.

(** The five scalars of the 2×3 sample. *)
Lemma scalars_2x3 :
  NGTDM.calc_Coarseness ngtdm_2x3 = Some 0.125%float ∧
  NGTDM.calc_Busyness ngtdm_2x3 = Some 2%float ∧
  NGTDM.calc_Complexity ngtdm_2x3 = Some 10%float ∧
  NGTDM.calc_Strength ngtdm_2x3 = Some 0.75%float.
Proof. repeat split; by vm_compute. Qed.

(** ** NGTDM: the scan of the matrix *)

Lemma wrap_uint32_add_l s v :
  wrap_uint32 (wrap_uint32 s + v) = wrap_uint32 (s + v).
Proof. unfold wrap_uint32. apply Zplus_mod_idemp_l. Qed.

Section Scan.
Variable D : ImageMatrix.
Hypothesis Hwf : wf_matrix D.

Lemma safe_true row col :
  safe D row col = true ↔ 0 ≤ row < height D ∧ 0 ≤ col < width D.
Proof. unfold safe. by rewrite bool_decide_eq_true. Qed.

Lemma storage_index row col :
  0 ≤ row < height D → 0 ≤ col < width D →
  0 ≤ row * width D + col < height D * width D.
Proof. nia. Qed.

(** Inside the bounds every read succeeds. *)
Lemma pixel_inbounds row col :
  0 ≤ row < height D → 0 ≤ col < width D →
  ∃ v, pixel D row col = Some v
       ∧ ReadablePixels D !! Z.to_nat (row * width D + col) = Some v.
Proof.
  intros Hr Hc. pose proof (storage_index row col Hr Hc) as Hk.
  destruct (lookup_lt_is_Some_2 (ReadablePixels D)
              (Z.to_nat (row * width D + col))) as [v Hv].
  { pose proof (wf_cells D Hwf). lia. }
  exists v. unfold pixel. by rewrite decide_True by lia.
Qed.

Lemma safe_pixel r c : safe D r c = true → is_Some (pixel D r c).
Proof.
  intros [Hr Hc]%safe_true.
  destruct (pixel_inbounds r c Hr Hc) as (v & -> & _). by eexists.
Qed.

Lemma visit_reads row col ds s n :
  visit D row col ds (wrap_uint32 s, n)
  = Some (wrap_uint32 (s + Spec.sum_list (Spec.neighbors_along D row col ds)),
          n + Z.of_nat (length (Spec.neighbors_along D row col ds))).
Proof.
  revert s n. induction ds as [|d ds IH]; intros s n.
  - unfold visit, Spec.neighbors_along. simpl. by rewrite !Z.add_0_r.
  - change (visit D row col (d :: ds) (wrap_uint32 s, n))
      with (NGTDM.add_neighbor D (row + d.1) (col + d.2) (wrap_uint32 s, n)
            ≫= visit D row col ds).
    change (Spec.neighbors_along D row col (d :: ds))
      with (match (if safe D (row + d.1) (col + d.2)
                   then pixel D (row + d.1) (col + d.2) else None) with
            | Some v => v :: Spec.neighbors_along D row col ds
            | None => Spec.neighbors_along D row col ds
            end).
    unfold NGTDM.add_neighbor.
    destruct (safe D (row + d.1) (col + d.2)) eqn:Hs.
    + destruct (safe_pixel _ _ Hs) as [v Hv]. rewrite Hv. simpl.
      rewrite wrap_uint32_add_l, IH.
      do 2 f_equal; [f_equal|]; lia.
    + simpl. apply IH.
Qed.

Lemma neighborhood_visit row col :
  NGTDM.neighborhood D row col = visit D row col Spec.neighbor_offsets (0, 0).
Proof.
  unfold NGTDM.neighborhood, visit, Spec.neighbor_offsets, Z.sub. simpl.
  rewrite !Z.add_0_r.
  do 7 (apply option_bind_ext; [intros ?|reflexivity]).
  by destruct (NGTDM.add_neighbor _ _ _ _).
Qed.

(** [neigsI] and [nd] as they stand before the division. *)
Lemma neighborhood_reads row col :
  NGTDM.neighborhood D row col
  = Some (wrap_uint32 (Spec.sum_list (Spec.inbounds_neighbors D row col)),
          Z.of_nat (length (Spec.inbounds_neighbors D row col))).
Proof.
  rewrite neighborhood_visit.
  change (0, 0) with (wrap_uint32 0, 0). rewrite visit_reads.
  by unfold Spec.inbounds_neighbors.
Qed.

(** With two cells or more, every cell has a neighbour inside the matrix. *)
Lemma some_neighbor_inbounds row col :
  0 ≤ row < height D → 0 ≤ col < width D → 2 ≤ height D * width D →
  (1 ≤ length (Spec.inbounds_neighbors D row col))%nat.
Proof.
  intros Hr Hc Hcells.
  assert (∃ d, d ∈ Spec.neighbor_offsets
               ∧ safe D (row + d.1) (col + d.2) = true) as (d & Hd & Hs).
  { unfold Spec.neighbor_offsets.
    destruct (decide (2 ≤ width D)) as [Hw|Hw].
    - destruct (decide (col + 1 < width D)).
      + exists (0, 1). split; [offset_listed|]. apply safe_true. simpl. lia.
      + exists (0, -1). split; [offset_listed|]. apply safe_true. simpl. lia.
    - assert (2 ≤ height D) by nia.
      destruct (decide (row + 1 < height D)).
      + exists (1, 0). split; [offset_listed|]. apply safe_true. simpl. lia.
      + exists (-1, 0). split; [offset_listed|]. apply safe_true. simpl. lia. }
  destruct (safe_pixel _ _ Hs) as [v Hv].
  assert (v ∈ Spec.inbounds_neighbors D row col) as Hin.
  { apply list_elem_of_omap. exists d. split; [done|]. by rewrite Hs. }
  destruct (Spec.inbounds_neighbors D row col); [by apply elem_of_nil in Hin|].
  simpl. lia.
Qed.

Lemma storage_position row col :
  0 ≤ row → 0 ≤ col < width D →
  (row * width D + col) / width D = row
  ∧ (row * width D + col) mod width D = col.
Proof.
  intros Hr Hc. split.
  - rewrite Z.div_add_l by lia. rewrite Z.div_small by lia. lia.
  - rewrite Z.add_comm, Z_mod_plus_full. by apply Z.mod_small.
Qed.

(** One step of the scan extends both results by one storage cell. *)
Lemma scan_pixel_step row col :
  0 ≤ row < height D → 0 ≤ col < width D → height D * width D ≠ 1 →
  NGTDM.scan_pixel D row col
    (Spec.zones_upto D (Z.to_nat (row * width D + col)),
     Spec.intensities_upto D (Z.to_nat (row * width D + col)))
  = Some (Spec.zones_upto D (Datatypes.S (Z.to_nat (row * width D + col))),
          Spec.intensities_upto D
            (Datatypes.S (Z.to_nat (row * width D + col)))).
Proof.
  intros Hr Hc Hcells.
  pose proof (storage_index row col Hr Hc) as Hk.
  destruct (pixel_inbounds row col Hr Hc) as (v & Hpix & Hlook).
  destruct (storage_position row col) as [Hdiv Hmod]; [lia|lia|].
  assert (Spec.zones_upto D (Datatypes.S (Z.to_nat (row * width D + col)))
          = Spec.zones_upto D (Z.to_nat (row * width D + col))
            ++ Spec.zone_at D row col) as ->.
  { unfold Spec.zones_upto. rewrite seq_S, bind_app, bind_singleton. simpl.
    by rewrite Z2Nat.id, Hdiv, Hmod by lia. }
  assert (Spec.intensities_upto D (Datatypes.S (Z.to_nat (row * width D + col)))
          = Spec.intensities_upto D (Z.to_nat (row * width D + col))
            ∪ list_to_set (filter (λ v, v ≠ 0) [v])) as ->.
  { unfold Spec.intensities_upto.
    by rewrite (take_S_r _ _ v Hlook), filter_app, list_to_set_app_L. }
  unfold NGTDM.scan_pixel, Spec.zone_at. rewrite Hpix. simpl.
  destruct (decide (v = 0)) as [->|Hv].
  - rewrite app_nil_r. do 2 f_equal.
    rewrite filter_cons_False by (intros ?; done).
    by rewrite filter_nil, list_to_set_nil, (right_id_L ∅ (∪)).
  - rewrite neighborhood_reads. simpl.
    pose proof (some_neighbor_inbounds row col Hr Hc) as Hnd.
    rewrite decide_False by nia.
    do 2 f_equal. rewrite filter_cons_True by done.
    by rewrite filter_nil, list_to_set_singleton_L, (comm_L (∪)).
Qed.

(** The scan is defined on every matrix but the one-cell matrix, and
    yields the zones of all cells in storage order together with the set
    of distinct non-zero intensities. *)
Lemma gather_zones_spec :
  height D * width D ≠ 1 →
  NGTDM.gather_zones D = Some (Spec.zones D, Spec.intensities D).
Proof.
  intros Hcells. pose proof (wf_height D Hwf) as Hh.
  pose proof (wf_width D Hwf) as Hw. pose proof (wf_cells D Hwf) as Hlen.
  unfold NGTDM.gather_zones.
  destruct (for_range_inv
    (λ row st, st = (Spec.zones_upto D (Z.to_nat (row * width D)),
                     Spec.intensities_upto D (Z.to_nat (row * width D))))
    (λ row, for_range 0 (width D) (λ col, NGTDM.scan_pixel D row col))
    0 (height D) ([], ∅)) as (st & -> & ->); [lia|done| |].
  - intros row st Hrow ->.
    destruct (for_range_inv
      (λ col st, st = (Spec.zones_upto D (Z.to_nat (row * width D + col)),
                       Spec.intensities_upto D
                         (Z.to_nat (row * width D + col))))
      (λ col, NGTDM.scan_pixel D row col)
      0 (width D)
      (Spec.zones_upto D (Z.to_nat (row * width D)),
       Spec.intensities_upto D (Z.to_nat (row * width D))))
      as (st & -> & ->); [lia|by rewrite Z.add_0_r| |].
    + intros col st Hcol ->. eexists. split.
      * by apply scan_pixel_step.
      * by replace (Z.to_nat (row * width D + (col + 1)))
          with (Datatypes.S (Z.to_nat (row * width D + col))) by nia.
    + eexists. split; [done|].
      by replace ((row + 1) * width D) with (row * width D + width D) by lia.
  - f_equal. unfold Spec.zones, Spec.intensities, Spec.intensities_upto.
    replace (Z.to_nat (height D * width D))
      with (length (ReadablePixels D)) by lia.
    by rewrite take_ge by lia.
Qed.
End Scan.

(** ** NGTDM: filling the matrix *)

Lemma length_resize {A} (n : nat) (v : A) (l : list A) :
  length (resize n v l) = n.
Proof.
  unfold resize. rewrite length_app, length_take, length_replicate. lia.
Qed.

Lemma size_list_to_set_le (l : list Z) :
  (size (list_to_set l : gset Z) ≤ length l)%nat.
Proof.
  induction l as [|x l IH].
  - by rewrite list_to_set_nil, size_empty.
  - rewrite list_to_set_cons, size_union_alt, size_singleton. simpl.
    pose proof (subseteq_size (list_to_set l ∖ {[x]}) (list_to_set l : gset Z)
                  (subseteq_difference_l _ _ _ (reflexivity _))).
    lia.
Qed.

Lemma size_intensities_le (D : ImageMatrix) :
  (size (Spec.intensities D) ≤ length (ReadablePixels D))%nat.
Proof.
  unfold Spec.intensities.
  etrans; [apply size_list_to_set_le|]. apply length_filter.
Qed.

(** [std::find] on a list that holds the value stops inside the list. *)
Lemma find_index_lt (x : Z) (I : list Z) :
  x ∈ I → (NGTDM.find_index x I < length I)%nat.
Proof.
  induction I as [|y I IH]; intros Hx; [by apply elem_of_nil in Hx|].
  simpl. case_decide; [lia|].
  apply elem_of_cons in Hx as [->|Hx]; [done|]. specialize (IH Hx). lia.
Qed.

(** Every recorded zone carries an intensity of the set [U]. *)
Lemma zones_intensity (D : ImageMatrix) (z : NGTDM.AveNeighborhoodInte) :
  z ∈ Spec.zones D → z.1 ∈ Spec.intensities D.
Proof.
  unfold Spec.zones, Spec.zones_upto. intros (i & Hz & _)%list_elem_of_bind.
  unfold Spec.zone_at in Hz.
  destruct (pixel D _ _) as [pi|] eqn:Hpix; [|by apply elem_of_nil in Hz].
  case_decide; [by apply elem_of_nil in Hz|].
  apply list_elem_of_singleton in Hz as ->. simpl.
  unfold Spec.intensities. apply elem_of_list_to_set, list_elem_of_filter.
  split; [done|]. unfold pixel in Hpix. case_decide; [|done].
  by eapply list_elem_of_lookup_2.
Qed.

Lemma sorted_intensities (U : gset Z) :
  (∀ x, x ∈ merge_sort Z.le (elements U) ↔ x ∈ U)
  ∧ length (merge_sort Z.le (elements U)) = size U.
Proof.
  split.
  - intros x. by rewrite merge_sort_Permutation, elem_of_elements.
  - by rewrite merge_sort_Permutation.
Qed.

(** The loop "Calculate P" writes the same quotient into every entry. *)
Lemma fill_P_total (im : ImageMatrix) (self : NGTDM.t) :
  INT_MIN ≤ height im * width im ≤ INT_MAX →
  0 ≤ NGTDM.Ng self →
  length (NGTDM.P self) = Z.to_nat (NGTDM.Ng self) →
  ∃ self', for_range 0 (NGTDM.Ng self) (NGTDM.fill_P im) self = Some self'
           ∧ NGTDM.Ng self' = NGTDM.Ng self
           ∧ NGTDM.Ngp self' = NGTDM.Ngp self
           ∧ NGTDM.bad_roi_data self' = NGTDM.bad_roi_data self
           ∧ length (NGTDM.P self') = Z.to_nat (NGTDM.Ng self)
           ∧ ∀ j, (j < Z.to_nat (NGTDM.Ng self))%nat →
                  NGTDM.P self' !! j
                  = Some (double_of_Z (NGTDM.Ng self)
                          / double_of_Z (height im * width im))%float.
Proof.
  intros Hcells Hng Hlen.
  destruct (for_range_inv
    (λ i st, NGTDM.Ng st = NGTDM.Ng self
             ∧ NGTDM.Ngp st = NGTDM.Ngp self
             ∧ NGTDM.bad_roi_data st = NGTDM.bad_roi_data self
             ∧ length (NGTDM.P st) = Z.to_nat (NGTDM.Ng self)
             ∧ ∀ j, (j < Z.to_nat i)%nat →
                    NGTDM.P st !! j
                    = Some (double_of_Z (NGTDM.Ng self)
                            / double_of_Z (height im * width im))%float)
    (NGTDM.fill_P im) 0 (NGTDM.Ng self) self)
    as (self' & Hrun & Hinv); [done| | |by exists self'].
  - repeat split; [done|]. intros j Hj. simpl in Hj. lia.
  - intros i st Hi (HNg & HNgp & Hbad & HlenP & Hdone).
    unfold NGTDM.fill_P, int_checked. rewrite decide_True by done. simpl.
    destruct (lookup_lt_is_Some_2 (NGTDM.P st) (Z.to_nat i)) as [p ->]; [lia|].
    simpl. eexists. split; [reflexivity|]. simpl.
    repeat split; [done..|by rewrite length_insert|].
    intros j Hj. rewrite HNg.
    destruct (decide (j = Z.to_nat i)) as [->|Hne].
    + apply list_lookup_insert_eq. lia.
    + rewrite list_lookup_insert_ne by done. apply Hdone. lia.
Qed.

(** [initialize] on the 2×3 sample and a fresh object: three gray levels
    are seen among six cells, and every entry of [P] is 3/6. *)
Lemma initialize_im_2x3 :
  NGTDM.initialize 1 7 im_2x3 NGTDM.fresh = Some ngtdm_2x3.
Proof. by vm_compute. Qed.

(** C10: on a matrix of two cells or more every cell, so every
    non-background pixel, has an in-bounds neighbour: the divisor [nd] is at
    least 1 and the scan never divides by zero.  On the 1×1 matrix with a
    non-zero pixel [nd] is 0 and the scan is undefined. *)
Theorem neighbor_count_positive (D : ImageMatrix) (v : Z) :
  (wf_matrix D → 2 ≤ height D * width D →
   (∀ row col, 0 ≤ row < height D → 0 ≤ col < width D →
      ∃ neigsI nd, NGTDM.neighborhood D row col = Some (neigsI, nd) ∧ 1 ≤ nd)
   ∧ is_Some (NGTDM.gather_zones D))
  ∧ (v ≠ 0 →
     NGTDM.neighborhood (mkImageMatrix 1 1 [v]) 0 0 = Some (0, 0)
     ∧ NGTDM.gather_zones (mkImageMatrix 1 1 [v]) = None).
Proof.
  split.
  - intros Hwf Hcells. split.
    + intros row col Hr Hc. do 2 eexists.
      split; [by apply neighborhood_reads|].
      pose proof (some_neighbor_inbounds D Hwf row col Hr Hc Hcells). lia.
    + rewrite gather_zones_spec by (done || lia). by eexists.
  - intros Hv. split; [reflexivity|].
    unfold NGTDM.gather_zones, for_range. simpl.
    unfold NGTDM.scan_pixel. simpl. unfold pixel. simpl.
    by rewrite decide_False by done.
Qed.

Lemma neighbor_count_positive_witness :
  ((∀ row col, 0 ≤ row < height im_2x3 → 0 ≤ col < width im_2x3 →
      ∃ neigsI nd, NGTDM.neighborhood im_2x3 row col = Some (neigsI, nd)
                   ∧ 1 ≤ nd)
   ∧ is_Some (NGTDM.gather_zones im_2x3))
  ∧ NGTDM.neighborhood (mkImageMatrix 1 1 [5]) 0 0 = Some (0, 0)
  ∧ NGTDM.gather_zones (mkImageMatrix 1 1 [5]) = None.
Proof.
  split.
  - apply (proj1 (neighbor_count_positive im_2x3 5));
      [split; simpl; lia | simpl; lia].
  - apply (proj2 (neighbor_count_positive im_2x3 5)). lia.
Defined.

(** C4, at the 2×2 matrix [[5 1] [1 0]]: the in-bounds neighbours of the
    corner pixel 5 are 1, 0 and 1, and the divisor is their count 3; the
    value recorded with the pixel is the integer quotient 2 / 3 = 0, not
    their average 2/3. *)
Theorem gather_zones_corner_pixel :
  Spec.inbounds_neighbors im_2x2 0 0 = [1; 0; 1] ∧
  NGTDM.neighborhood im_2x2 0 0 = Some (2, 3) ∧
  fst <$> NGTDM.gather_zones im_2x2
  = Some [(5, 0%float); (1, 2%float); (1, 2%float)] ∧
  (0 =? double_of_Z 2 / double_of_Z 3)%float = false.
Proof. repeat split; by vm_compute. Qed.

(** On a well-formed matrix other than the one-cell matrix the scan is
    defined; it records, for each non-zero pixel in storage order, its
    intensity paired with the unsigned integer quotient of the 32-bit sum of
    its in-bounds neighbours by their number, and collects the distinct
    non-zero intensities. *)
Theorem gather_zones_records (D : ImageMatrix) :
  wf_matrix D → height D * width D ≠ 1 →
  NGTDM.gather_zones D = Some (Spec.zones D, Spec.intensities D).
Proof. apply gather_zones_spec. Qed.

Lemma gather_zones_records_witness :
  NGTDM.gather_zones im_2x3 = Some (Spec.zones im_2x3, Spec.intensities im_2x3).
Proof.
  apply (gather_zones_records im_2x3); [split; simpl; lia | simpl; lia].
Defined.

(** ** More on loops *)

Section MoreLoops.
Context {A : Type}.

Lemma for_steps_app (body : Z → A → option A) n m i a :
  for_steps body (n + m) i a
  = for_steps body n i a ≫= for_steps body m (i + Z.of_nat n).
Proof.
  revert i a. induction n as [|n IH]; intros i a; simpl.
  - by rewrite Z.add_0_r.
  - destruct (body i a) as [b|]; simpl; [|done].
    rewrite IH. do 2 f_equal. lia.
Qed.

(** A loop over [[lo, hi)] is the loop over [[lo, mid)] followed by the
    loop over [[mid, hi)]. *)
Lemma for_range_split (body : Z → A → option A) lo mid hi a :
  lo ≤ mid ≤ hi →
  for_range lo hi body a = for_range lo mid body a ≫= for_range mid hi body.
Proof.
  intros Hm. unfold for_range.
  replace (Z.to_nat (hi - lo))
    with (Z.to_nat (mid - lo) + Z.to_nat (hi - mid))%nat by lia.
  rewrite for_steps_app.
  by replace (lo + Z.of_nat (Z.to_nat (mid - lo))) with mid by lia.
Qed.

Lemma for_range_empty (body : Z → A → option A) lo hi a :
  hi ≤ lo → for_range lo hi body a = Some a.
Proof.
  intros H. unfold for_range. by replace (Z.to_nat (hi - lo)) with 0%nat by lia.
Qed.

(** A loop whose body is undefined at some index of its range, whatever the
    state, is undefined. *)
(** A loop whose first iteration is undefined is undefined. *)
Lemma for_range_first_undefined (body : Z → A → option A) hi a :
  0 < hi → body 0 a = None → for_range 0 hi body a = None.
Proof.
  intros Hhi Hnone. unfold for_range.
  destruct (Z.to_nat (hi - 0)) as [|n] eqn:Hn; [lia|]. simpl. by rewrite Hnone.
Qed.

Lemma for_steps_undefined (body : Z → A → option A) n i a k :
  i ≤ k < i + Z.of_nat n → (∀ b, body k b = None) →
  for_steps body n i a = None.
Proof.
  revert i a. induction n as [|n IH]; intros i a Hk Hnone; [lia|].
  simpl. destruct (decide (k = i)) as [->|Hne]; [by rewrite Hnone|].
  destruct (body i a) as [b|]; simpl; [|done]. apply IH; [lia|done].
Qed.

(** A loop that reads its index only through a list is a loop over the
    list. *)
Lemma for_steps_each {B} (f : B → A → option A) (l : list B) n i a :
  0 ≤ i → (Z.to_nat i + n ≤ length l)%nat →
  for_steps (λ k b, x ← l !! Z.to_nat k; f x b) n i a
  = for_each f (take n (drop (Z.to_nat i) l)) a.
Proof.
  revert i a. induction n as [|n IH]; intros i a Hi Hlen; [done|].
  simpl. destruct (lookup_lt_is_Some_2 l (Z.to_nat i)) as [x Hx]; [lia|].
  rewrite Hx. rewrite (drop_S _ _ _ Hx). simpl.
  destruct (f x a) as [b|]; simpl; [|done].
  rewrite IH by lia. by replace (Z.to_nat (i + 1)) with (S (Z.to_nat i)) by lia.
Qed.
End MoreLoops.

(** ** Geodetic: saving the results *)

(** What [save_value] writes, and when it is undefined. *)
Lemma save_value_result (self : GLT.t)
    (fv : AvailableFeatures → list double) :
  (fv GEODETIC_LENGTH ≠ [] → fv THICKNESS ≠ [] →
   ∃ fv', GLT.save_value self fv = Some fv'
          ∧ fv' GEODETIC_LENGTH !! 0%nat = Some (GLT.geodetic_length self)
          ∧ fv' THICKNESS !! 0%nat = Some (GLT.thickness self)
          ∧ (∀ f, f ∉ GLT.provided_features → fv' f = fv f)
          ∧ (∀ f, length (fv' f) = length (fv f))
          ∧ (∀ f i, i ≠ 0%nat → fv' f !! i = fv f !! i))
  ∧ (fv GEODETIC_LENGTH = [] ∨ fv THICKNESS = [] →
     GLT.save_value self fv = None).
Proof.
  unfold GLT.save_value. split.
  - intros Hg Ht.
    destruct (fv GEODETIC_LENGTH) as [|g gs] eqn:Eg; [done|].
    destruct (fv THICKNESS) as [|t ts] eqn:Et; [done|]. simpl.
    eexists. split; [reflexivity|]. simpl.
    split; [by rewrite Eg|]. split; [by rewrite Et|]. split; [|split].
    + intros f Hf. destruct f; try done; exfalso; apply Hf;
        unfold GLT.provided_features; offset_listed.
    + intros f. destruct f; by rewrite ?length_insert.
    + intros f i Hi. destruct f; try done.
      * rewrite Eg. by destruct i.
      * rewrite Et. by destruct i.
  - intros [E|E].
    + by rewrite E.
    + rewrite E. by destruct (fv GEODETIC_LENGTH !! 0%nat).
Qed.

(** [save_value] writes the two results into element 0 of the vectors of the
    two provided features and changes nothing else: no other feature, no
    other element, no length.  On an empty vector of either provided
    feature it is undefined. *)
Theorem save_value_contract (self : GLT.t)
    (fv : AvailableFeatures → list double) :
  (fv GEODETIC_LENGTH ≠ [] → fv THICKNESS ≠ [] →
   ∃ fv', GLT.save_value self fv = Some fv'
          ∧ fv' GEODETIC_LENGTH !! 0%nat = Some (GLT.geodetic_length self)
          ∧ fv' THICKNESS !! 0%nat = Some (GLT.thickness self)
          ∧ (∀ f, f ∉ GLT.provided_features → fv' f = fv f)
          ∧ (∀ f, length (fv' f) = length (fv f))
          ∧ (∀ f i, i ≠ 0%nat → fv' f !! i = fv f !! i))
  ∧ (fv GEODETIC_LENGTH = [] ∨ fv THICKNESS = [] →
     GLT.save_value self fv = None).
Proof. apply save_value_result. Qed.

Lemma save_value_contract_witness :
  (∃ fv', GLT.save_value (GLT.mk 2 3) (fvals (roi_of 6 10)) = Some fv'
          ∧ fv' GEODETIC_LENGTH !! 0%nat = Some 2%float
          ∧ fv' THICKNESS !! 0%nat = Some 3%float
          ∧ (∀ f, f ∉ GLT.provided_features → fv' f = fvals (roi_of 6 10) f)
          ∧ (∀ f, length (fv' f) = length (fvals (roi_of 6 10) f))
          ∧ (∀ f i, i ≠ 0%nat → fv' f !! i = fvals (roi_of 6 10) f !! i))
  ∧ GLT.save_value (GLT.mk 2 3) (λ _, []) = None.
Proof.
  split.
  - apply (proj1 (save_value_contract (GLT.mk 2 3) (fvals (roi_of 6 10))));
      simpl; discriminate.
  - apply (proj2 (save_value_contract (GLT.mk 2 3) (λ _, []))).
    left. reflexivity.
Defined.

(** [calculate] reads the record only through [aux_area] and the
    [PERIMETER] vector, and does not read the object's prior state. *)
Lemma calculate_frame (r1 r2 : LR) (s1 s2 : GLT.t) :
  aux_area r1 = aux_area r2 → fvals r1 PERIMETER = fvals r2 PERIMETER →
  GLT.calculate r1 s1 = GLT.calculate r2 s2.
Proof. intros Ha Hp. unfold GLT.calculate. by rewrite Ha, Hp. Qed.

(** Saving the same results twice is saving them once. *)
Lemma save_value_twice (self : GLT.t) (fv fv' : AvailableFeatures → list double) :
  GLT.save_value self fv = Some fv' → GLT.save_value self fv' = Some fv'.
Proof.
  unfold GLT.save_value. intros H.
  destruct (fv GEODETIC_LENGTH) as [|g gs] eqn:Eg; [done|].
  destruct (fv THICKNESS) as [|t ts] eqn:Et; [done|].
  simpl in H. injection H as <-. rewrite Eg, Et. simpl. f_equal.
  apply functional_extensionality. intros f.
  destruct f; try done; by rewrite ?Eg, ?Et.
Qed.

(** ** Geodetic: the batch worker *)

Section BatchProperties.
Variable LR_default : LR.
Variable glt_new : GLT.t.

Local Abbreviation do_record := (process_record glt_new).
Local Abbreviation do_label := (process_label LR_default glt_new).
Local Abbreviation batch := (parallel_process_1_batch LR_default glt_new).

(** A processed record is a fixed point of the loop body. *)
Lemma process_record_stable (r r' : LR) :
  do_record r = Some r' → do_record r' = Some r'.
Proof.
  unfold process_record. destruct (has_bad_data r) eqn:Hbad.
  - intros [= <-]. by rewrite Hbad.
  - destruct (GLT.calculate r glt_new) as [glt|] eqn:Hcalc; [|done]. simpl.
    destruct (GLT.save_value glt (fvals r)) as [fv|] eqn:Hsave; [|done].
    intros [= <-]. unfold has_bad_data in *. simpl. rewrite Hbad.
    assert (fv PERIMETER = fvals r PERIMETER) as Hper.
    { unfold GLT.save_value in Hsave.
      destruct (fvals r GEODETIC_LENGTH !! 0%nat); [|done].
      destruct (fvals r THICKNESS !! 0%nat); [|done].
      simpl in Hsave. by injection Hsave as <-. }
    rewrite (calculate_frame _ r glt_new glt_new), Hcalc by done. simpl.
    by rewrite (save_value_twice _ _ _ Hsave).
Qed.

Lemma process_label_lookup lab data data' :
  do_label lab data = Some data' →
  ∃ r', do_record (default LR_default (data !! lab)) = Some r'
        ∧ data' = <[lab := r']> data.
Proof.
  unfold process_label.
  destruct (do_record _) as [r'|]; [|done]. intros [= <-]. by exists r'.
Qed.

(** A pass over a list of labels: every other label keeps its record, and
    every listed label ends with the processed form of the record it began
    with, however often it is listed. *)
Lemma for_each_labels (ls : list Z) (data data' : gmap Z LR) :
  for_each do_label ls data = Some data' →
  (∀ k, k ∉ ls → data' !! k = data !! k)
  ∧ (∀ k, k ∈ ls →
       ∃ r', do_record (default LR_default (data !! k)) = Some r'
             ∧ data' !! k = Some r').
Proof.
  revert data. induction ls as [|l ls IH]; intros data Hrun; simpl in Hrun.
  - injection Hrun as <-. split; [done|]. intros k Hk. by apply elem_of_nil in Hk.
  - destruct (do_label l data) as [d1|] eqn:Hl; [|done]. simpl in Hrun.
    destruct (process_label_lookup _ _ _ Hl) as (r1 & Hr1 & ->).
    destruct (IH _ Hrun) as [Hout Hin]. split.
    + intros k Hk. apply not_elem_of_cons in Hk as [Hne Hk].
      by rewrite Hout, lookup_insert_ne.
    + intros k Hk. destruct (decide (k ∈ ls)) as [Hls|Hls].
      * destruct (Hin k Hls) as (r' & Hr' & Hk').
        destruct (decide (k = l)) as [->|Hne].
        -- rewrite lookup_insert_eq in Hr'. simpl in Hr'.
           rewrite (process_record_stable _ _ Hr1) in Hr'.
           injection Hr' as <-. by exists r1.
        -- rewrite lookup_insert_ne in Hr' by done. by exists r'.
      * apply elem_of_cons in Hk as [->|Hk]; [|done].
        exists r1. split; [done|]. by rewrite Hout, lookup_insert_eq.
Qed.

(** The pass is defined when the body is defined on the record each listed
    label begins with. *)
Lemma for_each_labels_total (ls : list Z) (data : gmap Z LR) :
  (∀ k, k ∈ ls → is_Some (do_record (default LR_default (data !! k)))) →
  is_Some (for_each do_label ls data).
Proof.
  revert data. induction ls as [|l ls IH]; intros data Hdef; simpl.
  - by eexists.
  - destruct (Hdef l) as [r1 Hr1]; [apply list_elem_of_here|].
    change (do_label l data)
      with (do_record (default LR_default (data !! l))
            ≫= λ r', Some (<[l := r']> data)).
    rewrite Hr1. simpl. apply IH. intros k Hk. destruct (decide (k = l)) as [->|Hne].
    + rewrite lookup_insert_eq. simpl. exists r1.
      by apply (process_record_stable _ _ Hr1).
    + rewrite lookup_insert_ne by done. by apply Hdef, list_elem_of_further.
Qed.

(** A pass over labels whose records are all fixed points changes nothing. *)
Lemma for_each_labels_stable (ls : list Z) (data : gmap Z LR) :
  (∀ k, k ∈ ls → ∃ r, data !! k = Some r ∧ do_record r = Some r) →
  for_each do_label ls data = Some data.
Proof.
  induction ls as [|l ls IH]; intros Hst; [done|]. simpl.
  destruct (Hst l) as (r & Hl & Hr); [apply list_elem_of_here|].
  change (do_label l data)
    with (do_record (default LR_default (data !! l))
          ≫= λ r', Some (<[l := r']> data)).
  rewrite Hl. simpl. rewrite Hr. simpl.
  rewrite (insert_id _ _ _ Hl). apply IH.
  intros k Hk. by apply Hst, list_elem_of_further.
Qed.

(** Inside the label vector the batch is the pass over the labels it
    visits. *)
Lemma batch_for_each (start end_ : Z) (labels : list Z) (data : gmap Z LR) :
  0 ≤ start → end_ ≤ Z.of_nat (length labels) ∨ end_ ≤ start →
  batch start end_ labels data
  = for_each do_label (batch_labels start end_ labels) data.
Proof.
  intros Hs Hrange. unfold parallel_process_1_batch, batch_labels, for_range.
  destruct (decide (end_ ≤ start)).
  - by replace (Z.to_nat (end_ - start)) with 0%nat by lia.
  - apply for_steps_each; lia.
Qed.

(** The loop body on a good record: when [calculate] is defined on it and
    the vectors of the two provided features are not empty, the record comes
    back with the two results of [calculate] in element 0 of those vectors
    and with its area, its flag and every other feature as they were; the
    state of the fresh feature object plays no part. *)
Theorem process_record_good (r : LR) (res : GLT.t) :
  has_bad_data r = false →
  GLT.calculate r glt_new = Some res →
  fvals r GEODETIC_LENGTH ≠ [] → fvals r THICKNESS ≠ [] →
  ∃ r', (∀ glt, process_record glt r = Some r')
    ∧ aux_area r' = aux_area r ∧ bad_data r' = bad_data r
    ∧ fvals r' GEODETIC_LENGTH !! 0%nat = Some (GLT.geodetic_length res)
    ∧ fvals r' THICKNESS !! 0%nat = Some (GLT.thickness res)
    ∧ (∀ f, f ∉ GLT.provided_features → fvals r' f = fvals r f).
Proof.
  intros Hbad Hcalc Hg Ht.
  destruct (proj1 (save_value_result res (fvals r)) Hg Ht)
    as (fv & Hsave & Hgl & Hth & Hother & _).
  exists {| aux_area := aux_area r; fvals := fv; bad_data := bad_data r |}.
  split; [|by repeat split].
  intros glt. unfold process_record. rewrite Hbad.
  rewrite (calculate_frame r r glt glt_new), Hcalc by done. simpl.
  by rewrite Hsave.
Qed.

(** When the range lies inside the label vector and the loop body is defined
    on the record each visited label begins with, the batch is defined;
    every visited label then holds the processed form of its original
    record, also when it is visited more than once, and every other label
    keeps its record. *)
Theorem batch_result (start end_ : Z) (labels : list Z) (data : gmap Z LR) :
  0 ≤ start → end_ ≤ Z.of_nat (length labels) →
  Forall (λ k, is_Some (do_record (default LR_default (data !! k))))
         (batch_labels start end_ labels) →
  ∃ data', batch start end_ labels data = Some data'
           ∧ (∀ k, k ∈ batch_labels start end_ labels →
                data' !! k = do_record (default LR_default (data !! k)))
           ∧ (∀ k, k ∉ batch_labels start end_ labels →
                data' !! k = data !! k).
Proof.
  intros Hs He Hdef. rewrite batch_for_each by auto.
  destruct (for_each_labels_total (batch_labels start end_ labels) data)
    as [data' Hrun].
  { intros k Hk. by eapply Forall_forall in Hdef. }
  exists data'. split; [done|].
  destruct (for_each_labels _ _ _ Hrun) as [Hout Hin]. split; [|done].
  intros k Hk. destruct (Hin k Hk) as (r' & -> & ->). done.
Qed.

(** Records flagged bad are never changed: a batch that visits only bad
    records returns the table as it was, and any defined batch leaves every
    bad record of the table as it was. *)
Theorem batch_skips_bad (start end_ : Z) (labels : list Z)
    (data : gmap Z LR) :
  0 ≤ start → end_ ≤ Z.of_nat (length labels) →
  (Forall (λ k, ∃ r, data !! k = Some r ∧ has_bad_data r = true)
          (batch_labels start end_ labels) →
   batch start end_ labels data = Some data)
  ∧ (∀ data' k r, batch start end_ labels data = Some data' →
       data !! k = Some r → has_bad_data r = true → data' !! k = Some r).
Proof.
  intros Hs He. rewrite batch_for_each by auto. split.
  - intros Hbad. apply for_each_labels_stable. intros k Hk.
    eapply Forall_forall in Hbad as (r & Hr & Hb); [|done].
    exists r. split; [done|]. unfold process_record. by rewrite Hb.
  - intros data' k r Hrun Hk Hb.
    destruct (for_each_labels _ _ _ Hrun) as [Hout Hin].
    destruct (decide (k ∈ batch_labels start end_ labels)) as [Hv|Hv].
    + destruct (Hin k Hv) as (r' & Hr' & ->). rewrite Hk in Hr'. simpl in Hr'.
      unfold process_record in Hr'. by rewrite Hb in Hr'.
    + by rewrite Hout.
Qed.

(** Splitting a batch: the batch over [[start, end)] is the batch over
    [[start, mid)] followed by the batch over [[mid, end)] on its result,
    undefined when either part is. *)
Theorem batch_split (start mid end_ : Z) (labels : list Z)
    (data : gmap Z LR) :
  start ≤ mid ≤ end_ →
  batch start end_ labels data
  = batch start mid labels data ≫= batch mid end_ labels.
Proof. intros H. unfold parallel_process_1_batch. by apply for_range_split. Qed.

(** The batch never removes a label, and adds exactly the visited labels
    that were missing. *)
Theorem batch_keys (start end_ : Z) (labels : list Z)
    (data data' : gmap Z LR) :
  0 ≤ start → end_ ≤ Z.of_nat (length labels) →
  batch start end_ labels data = Some data' →
  dom data' = dom data ∪ list_to_set (batch_labels start end_ labels).
Proof.
  intros Hs He. rewrite batch_for_each by auto. intros Hrun.
  destruct (for_each_labels _ _ _ Hrun) as [Hout Hin].
  apply set_eq. intros k. rewrite elem_of_union, elem_of_list_to_set.
  rewrite !elem_of_dom.
  destruct (decide (k ∈ batch_labels start end_ labels)) as [Hv|Hv].
  - destruct (Hin k Hv) as (r' & _ & ->). split; [by right|by eexists].
  - rewrite Hout by done. split; [by left|]. by intros [?|?].
Qed.

(** Running a batch again on its own result changes nothing. *)
Theorem batch_idempotent (start end_ : Z) (labels : list Z)
    (data data' : gmap Z LR) :
  0 ≤ start → end_ ≤ Z.of_nat (length labels) →
  batch start end_ labels data = Some data' →
  batch start end_ labels data' = Some data'.
Proof.
  intros Hs He. rewrite !batch_for_each by auto. intros Hrun.
  destruct (for_each_labels _ _ _ Hrun) as [_ Hin].
  apply for_each_labels_stable. intros k Hk.
  destruct (Hin k Hk) as (r' & Hr' & Hk'). exists r'. split; [done|].
  by apply (process_record_stable _ _ Hr').
Qed.

(** A non-empty range that reaches past the end of the label vector makes
    the batch undefined. *)
Theorem batch_out_of_range (start end_ : Z) (labels : list Z)
    (data : gmap Z LR) :
  0 ≤ start < end_ → Z.of_nat (length labels) < end_ →
  batch start end_ labels data = None.
Proof.
  intros Hs He. unfold parallel_process_1_batch, for_range.
  apply (for_steps_undefined _ _ _ _ (Z.max start (Z.of_nat (length labels))));
    [lia|].
  intros b. rewrite (proj2 (lookup_ge_None labels _)); [done|lia].
Qed.
End BatchProperties.

Lemma process_record_good_witness :
  ∃ r', (∀ glt, process_record glt (roi_of 6 10) = Some r')
    ∧ aux_area r' = aux_area (roi_of 6 10)
    ∧ bad_data r' = bad_data (roi_of 6 10)
    ∧ fvals r' GEODETIC_LENGTH !! 0%nat = Some (GLT.geodetic_length (GLT.mk 2 3))
    ∧ fvals r' THICKNESS !! 0%nat = Some (GLT.thickness (GLT.mk 2 3))
    ∧ (∀ f, f ∉ GLT.provided_features → fvals r' f = fvals (roi_of 6 10) f).
Proof.
  apply (process_record_good glt0 (roi_of 6 10) (GLT.mk 2 3));
    [reflexivity | by vm_compute | simpl; discriminate | simpl; discriminate].
Defined.

Lemma batch_result_witness :
  ∃ data', parallel_process_1_batch roi_bad glt0 0 3 sample_labels sample_table
           = Some data'
           ∧ (∀ k, k ∈ batch_labels 0 3 sample_labels →
                data' !! k
                = process_record glt0 (default roi_bad (sample_table !! k)))
           ∧ (∀ k, k ∉ batch_labels 0 3 sample_labels →
                data' !! k = sample_table !! k).
Proof.
  apply (batch_result roi_bad glt0 0 3 sample_labels sample_table);
    [lia | simpl; lia | ].
  change (batch_labels 0 3 sample_labels) with [1; 2; 1].
  repeat (constructor; [vm_compute; eexists; reflexivity|]). constructor.
Defined.

Lemma batch_skips_bad_witness :
  parallel_process_1_batch roi_bad glt0 1 2 sample_labels sample_table
  = Some sample_table.
Proof.
  apply (proj1 (batch_skips_bad roi_bad glt0 1 2 sample_labels sample_table
                  ltac:(lia) ltac:(simpl; lia))).
  change (batch_labels 1 2 sample_labels) with [2].
  constructor; [|constructor].
  exists roi_bad. split; [by vm_compute | reflexivity].
Defined.

Lemma batch_split_witness :
  parallel_process_1_batch roi_bad glt0 0 3 sample_labels sample_table
  = parallel_process_1_batch roi_bad glt0 0 1 sample_labels sample_table
    ≫= parallel_process_1_batch roi_bad glt0 1 3 sample_labels.
Proof. apply (batch_split roi_bad glt0 0 1 3 sample_labels sample_table). lia. Defined.

Lemma sample_batch_done :
  parallel_process_1_batch roi_bad glt0 0 3 sample_labels sample_table
  = Some sample_table_done.
Proof. by vm_compute. Qed.

Lemma batch_keys_witness :
  dom sample_table_done
  = dom sample_table ∪ list_to_set (batch_labels 0 3 sample_labels).
Proof.
  apply (batch_keys roi_bad glt0 0 3 sample_labels sample_table);
    [lia | simpl; lia | by vm_compute].
Defined.

Lemma batch_idempotent_witness :
  parallel_process_1_batch roi_bad glt0 0 3 sample_labels sample_table_done
  = Some sample_table_done.
Proof.
  apply (batch_idempotent roi_bad glt0 0 3 sample_labels sample_table);
    [lia | simpl; lia | by vm_compute].
Defined.

Lemma batch_out_of_range_witness :
  parallel_process_1_batch roi_bad glt0 2 4 sample_labels sample_table = None.
Proof.
  apply (batch_out_of_range roi_bad glt0 2 4 sample_labels sample_table);
    [lia | simpl; lia].
Defined.

(** ** NGTDM: what the arrays hold after [initialize] *)

Lemma lookup_resize {A} (n : nat) (v : A) (l : list A) (k : nat) :
  (k < n)%nat → resize n v l !! k = Some (default v (l !! k)).
Proof.
  intros Hk. unfold resize. destruct (decide (k < length l)%nat) as [Hl|Hl].
  - rewrite lookup_app_l by (rewrite length_take; lia).
    rewrite lookup_take_lt by done.
    by destruct (lookup_lt_is_Some_2 l k Hl) as [x ->].
  - rewrite lookup_app_r by (rewrite length_take; lia).
    rewrite length_take, (proj2 (lookup_ge_None l k)) by lia. simpl.
    apply lookup_replicate_2. lia.
Qed.

(** On a well-formed matrix the zones carry, in order, exactly the non-zero
    pixels in storage order. *)
Lemma zones_upto_intensities (D : ImageMatrix) (k : nat) :
  wf_matrix D → (k ≤ length (ReadablePixels D))%nat →
  (Spec.zones_upto D k).*1 = filter (λ v, v ≠ 0) (take k (ReadablePixels D)).
Proof.
  intros Hwf. pose proof (wf_height D Hwf). pose proof (wf_width D Hwf).
  pose proof (wf_cells D Hwf) as Hcells.
  induction k as [|k IH]; intros Hk; [done|].
  unfold Spec.zones_upto in *. rewrite seq_S, bind_app, fmap_app, IH by lia.
  destruct (lookup_lt_is_Some_2 (ReadablePixels D) k) as [v Hv]; [lia|].
  rewrite (take_S_r _ _ _ Hv), filter_app. f_equal.
  rewrite bind_singleton. simpl. unfold Spec.zone_at, pixel.
  assert (0 < width D) by nia.
  replace (Z.of_nat k / width D * width D + Z.of_nat k `mod` width D)
    with (Z.of_nat k)
    by (rewrite (Z.div_mod (Z.of_nat k) (width D)) at 1 by lia; lia).
  rewrite decide_True by lia. rewrite Nat2Z.id, Hv.
  destruct (decide (v = 0)) as [->|Hnz].
  - by rewrite filter_cons_False by (intros ?; done).
  - by rewrite filter_cons_True by done.
Qed.

Lemma zones_intensities (D : ImageMatrix) :
  wf_matrix D → (Spec.zones D).*1 = filter (λ v, v ≠ 0) (ReadablePixels D).
Proof.
  intros Hwf. unfold Spec.zones. rewrite zones_upto_intensities by done.
  by rewrite take_ge.
Qed.

Lemma zones_of_length (x : Z) (Zs : list NGTDM.AveNeighborhoodInte) :
  length (zones_of x Zs) = occurrences x (Zs.*1).
Proof.
  unfold zones_of, occurrences. induction Zs as [|z Zs IH]; [done|].
  rewrite fmap_cons. destruct (decide (z.1 = x)) as [Hz|Hz].
  - rewrite !filter_cons_True by done. cbn [length]. f_equal. apply IH.
  - rewrite !filter_cons_False by done. apply IH.
Qed.

Lemma occurrences_nonzero (x : Z) (l : list Z) :
  x ≠ 0 → occurrences x (filter (λ v, v ≠ 0) l) = occurrences x l.
Proof.
  intros Hx. unfold occurrences. induction l as [|v l IH]; [done|].
  destruct (decide (v = 0)) as [->|Hv].
  - rewrite (filter_cons_False (λ v, v ≠ 0)) by (intros ?; done).
    rewrite (filter_cons_False (λ v, v = x)) by done. apply IH.
  - rewrite (filter_cons_True (λ v, v ≠ 0)) by done.
    destruct (decide (v = x)) as [->|Hvx].
    + rewrite !filter_cons_True by done. cbn [length]. f_equal. apply IH.
    + rewrite !filter_cons_False by done. apply IH.
Qed.

(** [std::find] returns the position of the value it finds, and on a list
    without repetitions every position is found that way. *)
Lemma find_index_lookup (y : Z) (I : list Z) :
  y ∈ I → I !! NGTDM.find_index y I = Some y.
Proof.
  induction I as [|x I IH]; intros Hy; [by apply elem_of_nil in Hy|].
  simpl. case_decide as Hx; [by subst|].
  apply elem_of_cons in Hy as [->|Hy]; [done|]. by apply IH.
Qed.

Lemma find_index_NoDup (I : list Z) (k : nat) (x : Z) :
  NoDup I → I !! k = Some x → NGTDM.find_index x I = k.
Proof.
  intros Hnd Hk. eapply NoDup_lookup; [done| |done].
  apply find_index_lookup. by eapply list_elem_of_lookup_2.
Qed.

Lemma zones_at_index_of (I : list Z) (k : nat) (x : Z)
    (Zs : list NGTDM.AveNeighborhoodInte) :
  NoDup I → I !! k = Some x → (∀ z, z ∈ Zs → z.1 ∈ I) →
  zones_at_index I k Zs = zones_of x Zs.
Proof.
  intros Hnd Hk. unfold zones_at_index, zones_of.
  induction Zs as [|z Zs IH]; intros HI; [done|].
  assert (NGTDM.find_index z.1 I = k ↔ z.1 = x) as Hiff.
  { split.
    - intros <-. pose proof (find_index_lookup z.1 I (HI z (list_elem_of_here _ _))).
      congruence.
    - intros ->. by apply find_index_NoDup. }
  specialize (IH (λ z' Hz', HI z' (list_elem_of_further _ _ _ Hz'))).
  destruct (decide (z.1 = x)) as [Hz|Hz].
  - rewrite !filter_cons_True by tauto. f_equal. exact IH.
  - rewrite !filter_cons_False by tauto. exact IH.
Qed.

(** The levels are the distinct non-zero intensities, each once, ascending. *)
Lemma levels_spec (D : ImageMatrix) :
  NoDup (levels D) ∧ Sorted Z.le (levels D)
  ∧ length (levels D) = size (Spec.intensities D)
  ∧ ∀ x, x ∈ levels D ↔ x ≠ 0 ∧ x ∈ ReadablePixels D.
Proof.
  unfold levels. split; [|split; [|split]].
  - rewrite merge_sort_Permutation. apply NoDup_elements.
  - apply (Sorted_merge_sort _).
  - by rewrite merge_sort_Permutation.
  - intros x. rewrite merge_sort_Permutation, elem_of_elements.
    unfold Spec.intensities. by rewrite elem_of_list_to_set, list_elem_of_filter.
Qed.

Section Preserved.
Context {A B : Type} (f : A → B).

(** What every defined iteration keeps, the loop keeps. *)
Lemma for_steps_preserved (body : Z → A → option A) n i a a' :
  (∀ k b b', body k b = Some b' → f b' = f b) →
  for_steps body n i a = Some a' → f a' = f a.
Proof.
  intros Hbody. revert i a. induction n as [|n IH]; intros i a Hrun.
  - by injection Hrun as <-.
  - simpl in Hrun. destruct (body i a) as [b|] eqn:Hb; [|done].
    simpl in Hrun. rewrite (IH _ _ Hrun). by eapply Hbody.
Qed.

Lemma for_each_preserved {C} (body : C → A → option A) l a a' :
  (∀ z b b', body z b = Some b' → f b' = f b) →
  for_each body l a = Some a' → f a' = f a.
Proof.
  intros Hbody. revert a. induction l as [|z l IH]; intros a Hrun.
  - by injection Hrun as <-.
  - simpl in Hrun. destruct (body z a) as [b|] eqn:Hb; [|done].
    simpl in Hrun. rewrite (IH _ Hrun). by eapply Hbody.
Qed.
End Preserved.

(** ** Conversions between integers and [double] *)

(** The conversion of a non-negative integer below 2^63 is the one the
    hardware performs on an unsigned 63-bit integer. *)
Lemma Prim2SF_double_of_Z (q : Z) :
  0 ≤ q < 2 ^ 63 →
  Prim2SF (double_of_Z q) = binary_normalize prec emax q 0 false.
Proof.
  intros Hq. unfold double_of_Z.
  assert (binary_normalize prec emax q 0 false
          = Prim2SF (of_uint63 (Uint63.of_Z q))) as E.
  { rewrite of_uint63_spec. f_equal.
    change (Uint63Axioms.to_Z (Uint63.of_Z q))
      with (Uint63.to_Z (Uint63.of_Z q)).
    rewrite Uint63.of_Z_spec. rewrite Z.mod_small; [done|].
    change Uint63.wB with (2 ^ 63). lia. }
  rewrite E. by rewrite SF2Prim_Prim2SF.
Qed.

Lemma digits2_pos_bounds (p : positive) :
  2 ^ (Z.pos (digits2_pos p) - 1) ≤ Z.pos p < 2 ^ Z.pos (digits2_pos p).
Proof.
  induction p as [p IH|p IH|]; simpl digits2_pos.
  - rewrite Pos2Z.inj_succ.
    replace (Z.succ (Z.pos (digits2_pos p)) - 1)
      with (Z.succ (Z.pos (digits2_pos p) - 1)) by lia.
    rewrite !Z.pow_succ_r by lia. lia.
  - rewrite Pos2Z.inj_succ.
    replace (Z.succ (Z.pos (digits2_pos p)) - 1)
      with (Z.succ (Z.pos (digits2_pos p) - 1)) by lia.
    rewrite !Z.pow_succ_r by lia. lia.
  - simpl. lia.
Qed.

Lemma digits2_pos_iter_xO (p d : positive) :
  digits2_pos (Pos.iter xO p d) = (digits2_pos p + d)%positive.
Proof.
  induction d as [|d IH] using Pos.peano_ind.
  - simpl. lia.
  - rewrite Pos.iter_succ. simpl. rewrite IH. lia.
Qed.

Lemma pos_iter_xO (p d : positive) :
  Z.pos (Pos.iter xO p d) = Z.pos p * 2 ^ Z.pos d.
Proof.
  induction d as [|d IH] using Pos.peano_ind.
  - simpl. lia.
  - rewrite Pos.iter_succ, Pos2Z.inj_xO, IH, Pos2Z.inj_succ, Z.pow_succ_r by lia.
    lia.
Qed.

(** A positive integer below 2^52 is a binary64 value: rounding it only
    shifts its digits into the 53-bit mantissa. *)
Lemma binary_normalize_small (p : positive) :
  Z.pos p < 2 ^ 52 →
  ∃ d, binary_normalize prec emax (Z.pos p) 0 false
       = S754_finite false (Pos.iter xO p d) (Z.neg d).
Proof.
  intros Hp. pose proof (digits2_pos_bounds p) as [Hlo Hhi].
  assert (Z.pos (digits2_pos p) ≤ 52) as Hd.
  { destruct (Z_le_gt_dec (Z.pos (digits2_pos p)) 52) as [|Hgt]; [done|].
    assert (2 ^ 52 ≤ 2 ^ (Z.pos (digits2_pos p) - 1))
      by (apply Z.pow_le_mono_r; lia).
    lia. }
  remember (digits2_pos p) as n eqn:En.
  assert (∃ d, Z.neg d = Z.pos n - 53) as [d Ed].
  { exists (Z.to_pos (53 - Z.pos n)). lia. }
  exists d. unfold binary_normalize, binary_round. rewrite <-En.
  assert (fexp prec emax (Z.pos n + 0) = Z.neg d) as Ef.
  { unfold fexp, emin, prec, emax. lia. }
  rewrite Ef. unfold shl_align. change (Z.neg d - 0) with (Z.neg d).
  cbv iota beta. unfold binary_round_aux, shr_fexp. unfold Zdigits2 at 1.
  change (PosDef.Pos.iter xO p d) with (Pos.iter xO p d).
  rewrite digits2_pos_iter_xO, <-En.
  assert (fexp prec emax (Z.pos (n + d) + Z.neg d) - Z.neg d = 0) as Ef2.
  { unfold fexp, emin, prec, emax. lia. }
  rewrite Ef2. simpl. by rewrite digits2_pos_iter_xO, <-En, Ef2.
Qed.

(** Integer to [double] and back is the identity below 2^52. *)
Lemma trunc_double_of_Z (q : Z) :
  0 ≤ q < 2 ^ 52 → trunc_double (double_of_Z q) = Some q.
Proof.
  intros Hq. unfold trunc_double. rewrite Prim2SF_double_of_Z by lia.
  destruct q as [|p|p]; [done| |lia].
  destruct (binary_normalize_small p) as [d ->]; [lia|].
  f_equal. rewrite pos_iter_xO. change (Z.neg d) with (- Z.pos d).
  rewrite Z.shiftl_opp_r, Z.shiftr_div_pow2 by lia.
  apply Z.div_mul. lia.
Qed.

Lemma int_of_double_of_Z (q : Z) :
  0 ≤ q ≤ INT_MAX → int_of_double (double_of_Z q) = Some q.
Proof.
  unfold INT_MAX. intros Hq. unfold int_of_double.
  rewrite trunc_double_of_Z by lia. simpl.
  unfold int_checked, INT_MIN, INT_MAX. by rewrite decide_True by lia.
Qed.

Lemma int_checked_Some (z z' : Z) :
  int_checked z = Some z' → z' = z ∧ INT_MIN ≤ z ≤ INT_MAX.
Proof. unfold int_checked. case_decide; [|done]. by intros [= <-]. Qed.

(** ** NGTDM: the recorded neighbourhood values *)

Lemma neighbors_along_pixels (D : ImageMatrix) (row col : Z)
    (ds : list (Z * Z)) (v : Z) :
  v ∈ Spec.neighbors_along D row col ds → v ∈ ReadablePixels D.
Proof.
  unfold Spec.neighbors_along. intros (d & _ & Hd)%list_elem_of_omap.
  destruct (safe D _ _); [|done]. unfold pixel in Hd.
  case_decide; [|done]. by eapply list_elem_of_lookup_2.
Qed.

(** With intensities that fit an [int], so does the quotient of the 32-bit
    neighbour sum by the neighbour count: a single neighbour is its own
    quotient, and with two or more the sum, below 2^32, is at least
    halved. *)
Lemma quotient_fits_int (ns : list Z) :
  Forall (λ v, 0 ≤ v ≤ INT_MAX) ns →
  0 ≤ wrap_uint32 (Spec.sum_list ns) / Z.of_nat (length ns) ≤ INT_MAX.
Proof.
  intros Hns. unfold wrap_uint32, uint32_modulus, INT_MAX in *.
  pose proof (Z.mod_pos_bound (Spec.sum_list ns) (2 ^ 32) ltac:(lia)) as Hm.
  destruct ns as [|v [|w ns]].
  - simpl. rewrite Z.div_0_r. lia.
  - apply Forall_cons in Hns as [Hv _]. unfold Spec.sum_list. simpl.
    rewrite Z.add_0_r, Z.div_1_r, Z.mod_small by lia. lia.
  - assert (2 ≤ Z.of_nat (length (v :: w :: ns))) as Hlen
      by (cbn [length]; lia).
    split; [apply Z.div_pos; lia|].
    assert (Spec.sum_list (v :: w :: ns) `mod` 2 ^ 32
            / Z.of_nat (length (v :: w :: ns)) < 2 ^ 31); [|lia].
    apply Z.div_lt_upper_bound; [lia|]. nia.
Qed.

Lemma zones_values_fit (D : ImageMatrix) (z : NGTDM.AveNeighborhoodInte) :
  Forall (λ v, 0 ≤ v ≤ INT_MAX) (ReadablePixels D) →
  z ∈ Spec.zones D → is_Some (int_of_double z.2).
Proof.
  intros Hpix. unfold Spec.zones, Spec.zones_upto.
  intros (i & Hz & _)%list_elem_of_bind. unfold Spec.zone_at in Hz.
  destruct (pixel D _ _) as [pi|]; [|by apply elem_of_nil in Hz].
  case_decide; [by apply elem_of_nil in Hz|].
  apply list_elem_of_singleton in Hz as ->. simpl.
  rewrite int_of_double_of_Z; [by eexists|].
  apply quotient_fits_int, Forall_forall. intros v Hv.
  eapply Forall_forall in Hpix; [exact Hpix|].
  by eapply neighbors_along_pixels.
Qed.

Lemma zones_length_le (D : ImageMatrix) :
  wf_matrix D → (length (Spec.zones D) ≤ length (ReadablePixels D))%nat.
Proof.
  intros Hwf.
  pose proof (length_filter (λ v : Z, v ≠ 0) (ReadablePixels D)) as Hle.
  rewrite <-(zones_intensities D Hwf), length_fmap in Hle. exact Hle.
Qed.

(** ** NGTDM: the loop "Calculate N and S" *)

(** A defined iteration, spelled out: the conversion and both increments
    were defined, and the iteration made exactly these updates. *)
Lemma tally_zone_Some (I : list Z) (z : NGTDM.AveNeighborhoodInte)
    (self self' : NGTDM.t) :
  NGTDM.tally_zone I z self = Some self' →
  ∃ n s, NGTDM.N self !! NGTDM.find_index z.1 I = Some n
    ∧ NGTDM.S self !! NGTDM.find_index z.1 I = Some s
    ∧ self' =
      {| NGTDM.bad_roi_data := NGTDM.bad_roi_data self;
         NGTDM.Ng := NGTDM.Ng self; NGTDM.Ngp := NGTDM.Ngp self;
         NGTDM.Nvp := if (0 <? z.2)%float then NGTDM.Nvp self + 1
                      else NGTDM.Nvp self;
         NGTDM.P := NGTDM.P self;
         NGTDM.S := <[NGTDM.find_index z.1 I :=
                       (s + fabs (double_of_Z z.1 - z.2))%float]> (NGTDM.S self);
         NGTDM.N := <[NGTDM.find_index z.1 I := n + 1]> (NGTDM.N self) |}.
Proof.
  unfold NGTDM.tally_zone. intros H.
  destruct (int_of_double z.2) as [col|]; [|done]. simpl in H.
  destruct (NGTDM.N self !! _) as [n|] eqn:Hn; [|done]. simpl in H.
  destruct (int_checked (n + 1)) as [n'|] eqn:Hn'; [|done]. simpl in H.
  apply int_checked_Some in Hn' as [-> _].
  destruct (NGTDM.S self !! _) as [s|] eqn:Hs; [|done]. simpl in H.
  exists n, s. do 2 (split; [done|]).
  destruct (0 <? z.2)%float.
  - destruct (int_checked (NGTDM.Nvp self + 1)) as [v|] eqn:Hv; [|done].
    apply int_checked_Some in Hv as [-> _]. by injection H as <-.
  - by injection H as <-.
Qed.

Lemma tally_zone_flag I z self self' :
  NGTDM.tally_zone I z self = Some self' →
  NGTDM.bad_roi_data self' = NGTDM.bad_roi_data self.
Proof. by intros (n & s & _ & _ & ->)%tally_zone_Some. Qed.

Lemma fill_P_keeps im i self self' :
  NGTDM.fill_P im i self = Some self' →
  NGTDM.bad_roi_data self' = NGTDM.bad_roi_data self
  ∧ NGTDM.S self' = NGTDM.S self ∧ NGTDM.N self' = NGTDM.N self
  ∧ NGTDM.Nvp self' = NGTDM.Nvp self.
Proof.
  unfold NGTDM.fill_P. destruct (int_checked _); [|done].
  destruct (NGTDM.P self !! _); [|done]. by intros [= <-].
Qed.

(** Whenever the loop "Calculate N and S" completes: entry by entry,
    [N[k]] has grown by the number of zones whose intensity has index [k]
    in [I], [S[k]] by their [|intensity − neighbourhood value|] in scan
    order, and [Nvp] by the number of zones with a positive neighbourhood
    value; [P], [Ng], [Ngp] and the flag are untouched. *)
Lemma tally_zones_post (I : list Z) (Zs : list NGTDM.AveNeighborhoodInte)
    (self self' : NGTDM.t) :
  for_each (NGTDM.tally_zone I) Zs self = Some self' →
  NGTDM.P self' = NGTDM.P self
  ∧ NGTDM.Ng self' = NGTDM.Ng self
  ∧ NGTDM.Ngp self' = NGTDM.Ngp self
  ∧ NGTDM.bad_roi_data self' = NGTDM.bad_roi_data self
  ∧ NGTDM.Nvp self'
    = NGTDM.Nvp self + Z.of_nat (length (positive_zones Zs))
  ∧ length (NGTDM.N self') = length (NGTDM.N self)
  ∧ length (NGTDM.S self') = length (NGTDM.S self)
  ∧ ∀ k n s, NGTDM.N self !! k = Some n → NGTDM.S self !! k = Some s →
      NGTDM.N self' !! k
      = Some (n + Z.of_nat (length (zones_at_index I k Zs)))
      ∧ NGTDM.S self' !! k = Some (abs_diff_sum s (zones_at_index I k Zs)).
Proof.
  revert self. induction Zs as [|z Zs IH]; intros self Hrun.
  - injection Hrun as <-. simpl. do 4 (split; [done|]). split; [lia|].
    do 2 (split; [done|]). intros k n s Hn Hs. split; [|done].
    rewrite Hn. f_equal. lia.
  - simpl in Hrun.
    destruct (NGTDM.tally_zone I z self) as [st|] eqn:Hstep; [|done].
    simpl in Hrun.
    destruct (tally_zone_Some _ _ _ _ Hstep) as (n0 & s0 & Hn0 & Hs0 & ->).
    destruct (IH _ Hrun)
      as (HP & HNg & HNgp & Hbad & HNvp & HlN & HlS & Hent).
    simpl in *. rewrite length_insert in HlN. rewrite length_insert in HlS.
    do 4 (split; [done|]). split; [|split; [done|]].
    { rewrite HNvp. unfold positive_zones, NGTDM.AveNeighborhoodInte in *.
      destruct (0 <? z.2)%float eqn:Hpos.
      - rewrite filter_cons_True by done. cbn [length]. lia.
      - rewrite filter_cons_False by (by rewrite Hpos). lia. }
    split; [done|]. intros k n s Hn Hs.
    pose proof (lookup_lt_Some _ _ _ Hn0) as HltN.
    pose proof (lookup_lt_Some _ _ _ Hs0) as HltS.
    unfold zones_at_index, NGTDM.AveNeighborhoodInte in *.
    destruct (decide (k = NGTDM.find_index z.1 I)) as [->|Hne].
    + rewrite Hn0 in Hn. injection Hn as <-.
      rewrite Hs0 in Hs. injection Hs as <-.
      destruct (Hent (NGTDM.find_index z.1 I) (n0 + 1)
                  (s0 + fabs (double_of_Z z.1 - z.2))%float) as [-> ->].
      { by apply list_lookup_insert_eq. }
      { by apply list_lookup_insert_eq. }
      unfold zones_at_index. rewrite filter_cons_True by done.
      cbn [length]. split; [f_equal; lia|done].
    + destruct (Hent k n s) as [-> ->].
      { by rewrite list_lookup_insert_ne. }
      { by rewrite list_lookup_insert_ne. }
      unfold zones_at_index. by rewrite filter_cons_False by done.
Qed.

(** The loop "Calculate N and S" completes when every zone's intensity is
    listed in [I], every recorded neighbourhood value fits an [int], and the
    counters leave room for one increment per zone. *)
Lemma tally_zones_defined (I : list Z) (Zs : list NGTDM.AveNeighborhoodInte)
    (self : NGTDM.t) :
  (∀ z, z ∈ Zs → z.1 ∈ I ∧ is_Some (int_of_double z.2)) →
  length (NGTDM.N self) = length I → length (NGTDM.S self) = length I →
  (∀ k n, NGTDM.N self !! k = Some n →
          INT_MIN ≤ n ∧ n + Z.of_nat (length Zs) ≤ INT_MAX) →
  INT_MIN ≤ NGTDM.Nvp self →
  NGTDM.Nvp self + Z.of_nat (length Zs) ≤ INT_MAX →
  is_Some (for_each (NGTDM.tally_zone I) Zs self).
Proof.
  revert self. induction Zs as [|z Zs IH]; intros self HZ HN HS HNb Hlo Hhi.
  - by eexists.
  - destruct (HZ z (list_elem_of_here _ _)) as [HzI [col Hcol]].
    pose proof (find_index_lt _ _ HzI) as Hrow.
    destruct (lookup_lt_is_Some_2 (NGTDM.N self) _ ltac:(by rewrite HN))
      as [n0 Hn0].
    destruct (lookup_lt_is_Some_2 (NGTDM.S self) _ ltac:(by rewrite HS))
      as [s0 Hs0].
    destruct (HNb _ _ Hn0) as [Hn0lo Hn0hi]. cbn [length] in *.
    assert (NGTDM.tally_zone I z self = Some
      {| NGTDM.bad_roi_data := NGTDM.bad_roi_data self;
         NGTDM.Ng := NGTDM.Ng self; NGTDM.Ngp := NGTDM.Ngp self;
         NGTDM.Nvp := if (0 <? z.2)%float then NGTDM.Nvp self + 1
                      else NGTDM.Nvp self;
         NGTDM.P := NGTDM.P self;
         NGTDM.S := <[NGTDM.find_index z.1 I :=
                       (s0 + fabs (double_of_Z z.1 - z.2))%float]> (NGTDM.S self);
         NGTDM.N := <[NGTDM.find_index z.1 I := n0 + 1]> (NGTDM.N self) |})
      as Hstep.
    { unfold NGTDM.tally_zone, int_checked. rewrite Hcol, Hn0, Hs0. simpl.
      destruct (0 <? z.2)%float; by rewrite !decide_True by lia. }
    simpl. rewrite Hstep. simpl. apply IH; simpl.
    + intros z' Hz'. by apply HZ, list_elem_of_further.
    + by rewrite length_insert.
    + by rewrite length_insert.
    + intros k n Hk.
      destruct (decide (k = NGTDM.find_index z.1 I)) as [->|Hne].
      * rewrite list_lookup_insert_eq in Hk by (rewrite HN; lia).
        injection Hk as <-. lia.
      * rewrite list_lookup_insert_ne in Hk by done.
        destruct (HNb _ _ Hk). lia.
    + destruct (0 <? z.2)%float; lia.
    + destruct (0 <? z.2)%float; lia.
Qed.

Lemma fill_P_loop_keeps im lo hi self self' :
  for_range lo hi (NGTDM.fill_P im) self = Some self' →
  NGTDM.S self' = NGTDM.S self ∧ NGTDM.N self' = NGTDM.N self
  ∧ NGTDM.Nvp self' = NGTDM.Nvp self
  ∧ NGTDM.bad_roi_data self' = NGTDM.bad_roi_data self.
Proof.
  intros Hrun.
  assert ((NGTDM.S self', NGTDM.N self', NGTDM.Nvp self',
           NGTDM.bad_roi_data self')
          = (NGTDM.S self, NGTDM.N self, NGTDM.Nvp self,
             NGTDM.bad_roi_data self)) as Heq.
  { apply (for_steps_preserved
             (λ s, (NGTDM.S s, NGTDM.N s, NGTDM.Nvp s, NGTDM.bad_roi_data s))
             (NGTDM.fill_P im) (Z.to_nat (hi - lo)) lo); [|exact Hrun].
    intros k b b' Hb.
    by destruct (fill_P_keeps _ _ _ _ Hb) as (-> & -> & -> & ->). }
  by injection Heq as -> -> -> ->.
Qed.

(** Whenever the loop "Calculate P" completes, every entry of [P] holds the
    same quotient. *)
Lemma fill_P_loop_post (im : ImageMatrix) (self self' : NGTDM.t) :
  0 ≤ NGTDM.Ng self →
  length (NGTDM.P self) = Z.to_nat (NGTDM.Ng self) →
  for_range 0 (NGTDM.Ng self) (NGTDM.fill_P im) self = Some self' →
  NGTDM.Ng self' = NGTDM.Ng self
  ∧ NGTDM.Ngp self' = NGTDM.Ngp self
  ∧ NGTDM.P self'
    = replicate (Z.to_nat (NGTDM.Ng self))
        (double_of_Z (NGTDM.Ng self)
         / double_of_Z (height im * width im))%float.
Proof.
  intros Hng Hlen Hrun.
  destruct (decide (NGTDM.Ng self = 0)) as [H0|H0].
  - rewrite H0 in *. unfold for_range in Hrun. simpl in Hrun.
    injection Hrun as <-. do 2 (split; [done|]).
    simpl in *. by apply nil_length_inv.
  - destruct (decide (INT_MIN ≤ height im * width im ≤ INT_MAX)) as [Hc|Hc].
    + destruct (fill_P_total im self Hc Hng Hlen)
        as (st & Hst & HNg & HNgp & _ & HlP & Hall).
      rewrite Hrun in Hst. injection Hst as <-. do 2 (split; [done|]).
      apply list_eq. intros i.
      destruct (decide (i < Z.to_nat (NGTDM.Ng self))%nat).
      * rewrite Hall by done. by rewrite lookup_replicate_2.
      * rewrite (proj2 (lookup_ge_None _ _)) by lia.
        symmetry. apply lookup_replicate_None. lia.
    + rewrite for_range_first_undefined in Hrun; [done|lia|].
      unfold NGTDM.fill_P, int_checked. by rewrite decide_False.
Qed.

(** ** NGTDM: the whole of [initialize] *)

(** On the one-cell matrix the scan is defined exactly for a background
    pixel. *)
Lemma gather_zones_one_cell (D : ImageMatrix) :
  wf_matrix D → height D * width D = 1 →
  ∃ v, D = mkImageMatrix 1 1 [v]
       ∧ NGTDM.gather_zones D
         = if decide (v = 0) then Some ([], ∅) else None.
Proof.
  intros [Hh Hw Hlen] Hone. destruct D as [h w l]. simpl in *.
  destruct (Z.eq_mul_1_nonneg h w Hh Hone) as [-> ->].
  destruct l as [|v [|? ?]]; simpl in Hlen; try lia.
  exists v. split; [done|].
  unfold NGTDM.gather_zones, for_range. simpl.
  unfold NGTDM.scan_pixel. simpl. unfold pixel. simpl.
  by case_decide.
Qed.

(** Whenever the scan completes, it has recorded the zones of all cells in
    storage order and collected the distinct non-zero intensities. *)
Lemma gather_zones_post (D : ImageMatrix)
    (ZU : list NGTDM.AveNeighborhoodInte * gset Z) :
  wf_matrix D → NGTDM.gather_zones D = Some ZU →
  ZU = (Spec.zones D, Spec.intensities D).
Proof.
  intros Hwf Hrun.
  destruct (decide (height D * width D = 1)) as [Hone|Hone].
  - destruct (gather_zones_one_cell D Hwf Hone) as (v & -> & Hg).
    rewrite Hg in Hrun. case_decide as Hv; [|done]. subst v.
    by injection Hrun as <-.
  - rewrite (gather_zones_spec D Hwf Hone) in Hrun. by injection Hrun as <-.
Qed.

(** Whenever [initialize] returns on a matrix that is not degenerate. *)
Lemma initialize_post (minI maxI : Z) (im : ImageMatrix)
    (self self' : NGTDM.t) :
  minI ≠ maxI → wf_matrix im →
  NGTDM.initialize minI maxI im self = Some self' →
  NGTDM.bad_roi_data self' = NGTDM.bad_roi_data self
  ∧ NGTDM.Ng self' = Z.of_nat (length (levels im))
  ∧ NGTDM.Ngp self' = Z.of_nat (length (levels im))
  ∧ NGTDM.P self'
    = replicate (length (levels im))
        (double_of_Z (Z.of_nat (length (levels im)))
         / double_of_Z (height im * width im))%float
  ∧ length (NGTDM.S self') = length (levels im)
  ∧ length (NGTDM.N self') = length (levels im)
  ∧ NGTDM.Nvp self'
    = NGTDM.Nvp self + Z.of_nat (length (positive_zones (Spec.zones im)))
  ∧ ∀ k x, levels im !! k = Some x →
      NGTDM.N self' !! k
      = Some (default 0 (NGTDM.N self !! k)
              + Z.of_nat (occurrences x (ReadablePixels im)))
      ∧ NGTDM.S self' !! k
        = Some (abs_diff_sum (default 0%float (NGTDM.S self !! k))
                  (zones_of x (Spec.zones im))).
Proof.
  intros Hne Hwf Hrun.
  destruct (levels_spec im) as (Hnd & _ & HlenI & Hlev).
  unfold NGTDM.initialize in Hrun. rewrite decide_False in Hrun by done.
  destruct (NGTDM.gather_zones im) as [ZU|] eqn:Hg; [|done].
  apply gather_zones_post in Hg as ->; [|done]. simpl in Hrun.
  destruct (int_checked _) as [ng|] eqn:Hng; [|done].
  apply int_checked_Some in Hng as [-> _]. simpl in Hrun.
  fold (levels im) in Hrun. rewrite <-HlenI, Nat2Z.id in Hrun.
  match type of Hrun with
  | context [for_each ?body ?l ?st] =>
      destruct (for_each body l st) as [st1|] eqn:Htally; [|done]
  end.
  simpl in Hrun.
  destruct (tally_zones_post _ _ _ _ Htally)
    as (HP & HNg & HNgp & Hbad & HNvp & HlN & HlS & Hent).
  simpl in *. rewrite length_resize in HlN. rewrite length_resize in HlS.
  destruct (fill_P_loop_keeps _ _ _ _ _ Hrun) as (HS2 & HN2 & HNvp2 & Hbad2).
  destruct (fill_P_loop_post im st1 self') as (HNg2 & HNgp2 & HP2);
    [lia|by rewrite HP, length_resize, HNg, Nat2Z.id|done|].
  rewrite HNg, Nat2Z.id in *.
  split; [congruence|]. split; [congruence|]. split; [congruence|].
  split; [done|]. split; [congruence|]. split; [congruence|].
  split; [congruence|].
  assert (∀ z, z ∈ Spec.zones im → z.1 ∈ levels im) as Hzl.
  { intros z Hz. apply zones_intensity in Hz. unfold levels.
    by rewrite merge_sort_Permutation, elem_of_elements. }
  intros k x Hk. pose proof (lookup_lt_Some _ _ _ Hk) as Hlt.
  destruct (Hent k (default 0 (NGTDM.N self !! k))
              (default 0%float (NGTDM.S self !! k))) as [HNk HSk];
    [by apply lookup_resize..|].
  rewrite HN2, HS2, HNk, HSk.
  rewrite (zones_at_index_of _ _ x) by done.
  rewrite zones_of_length, zones_intensities by done.
  rewrite occurrences_nonzero; [done|].
  by apply Hlev, (list_elem_of_lookup_2 _ k).
Qed.

(** [initialize] returns on a matrix of two cells or more whose cell count
    and intensities fit an [int], when the counters [N] and [Nvp] of the
    object leave room for one increment per cell. *)
Lemma initialize_defined (minI maxI : Z) (im : ImageMatrix) (self : NGTDM.t) :
  minI ≠ maxI → wf_matrix im →
  height im * width im ≠ 1 → height im * width im ≤ INT_MAX →
  Forall (λ v, 0 ≤ v ≤ INT_MAX) (ReadablePixels im) →
  Forall (λ n, INT_MIN ≤ n ∧ n + height im * width im ≤ INT_MAX)
    (NGTDM.N self) →
  INT_MIN ≤ NGTDM.Nvp self →
  NGTDM.Nvp self + height im * width im ≤ INT_MAX →
  is_Some (NGTDM.initialize minI maxI im self).
Proof.
  intros Hne Hwf Hone Hmax Hpix HNb Hlo Hhi.
  pose proof (wf_height im Hwf). pose proof (wf_width im Hwf).
  pose proof (wf_cells im Hwf). pose proof (size_intensities_le im) as Hsz.
  pose proof (zones_length_le im Hwf) as Hzs.
  destruct (levels_spec im) as (Hnd & _ & HlenI & Hlev).
  unfold NGTDM.initialize. rewrite decide_False by done.
  rewrite (gather_zones_spec im Hwf Hone). simpl.
  unfold int_checked at 1. rewrite decide_True by (unfold INT_MIN; lia). simpl.
  fold (levels im). rewrite <-HlenI in *. rewrite Nat2Z.id.
  match goal with |- context [for_each ?body ?l ?st] =>
    destruct (tally_zones_defined (levels im) l st) as [st1 Htally]
  end.
  - intros z Hz. split; [|by eapply zones_values_fit].
    apply zones_intensity in Hz. unfold levels.
    by rewrite merge_sort_Permutation, elem_of_elements.
  - simpl. by rewrite length_resize.
  - simpl. by rewrite length_resize.
  - simpl. intros k n Hk. pose proof (lookup_lt_Some _ _ _ Hk) as Hlt.
    rewrite length_resize in Hlt. rewrite lookup_resize in Hk by done.
    injection Hk as <-.
    destruct (NGTDM.N self !! k) as [n|] eqn:Hn; simpl.
    + eapply Forall_lookup_1 in HNb as [? ?]; [|exact Hn]. lia.
    + unfold INT_MIN. lia.
  - done.
  - simpl. lia.
  - rewrite Htally. simpl.
    destruct (tally_zones_post _ _ _ _ Htally) as (HP & HNg & _).
    simpl in *.
    destruct (fill_P_total im st1) as (st2 & -> & _); [| | |by eexists].
    + unfold INT_MIN. nia.
    + lia.
    + by rewrite HP, length_resize, HNg, Nat2Z.id.
Qed.

(** C8: whenever [initialize] returns on a matrix that is not degenerate,
    [Ng] is the number of distinct non-zero intensities and every entry of
    [P] is the same value [Ng / (image height × image width)], whatever the
    pixel counts of the intensities.  The call does return on a matrix of
    two cells or more whose cell count and intensities fit an [int], when
    the counters [N] and [Nvp] of the object leave room for one increment
    per cell. *)
Theorem initialize_P_uniform (minI maxI : Z) (im : ImageMatrix)
    (self : NGTDM.t) :
  minI ≠ maxI → wf_matrix im →
  (∀ self', NGTDM.initialize minI maxI im self = Some self' →
     NGTDM.Ng self' = Z.of_nat (size (Spec.intensities im))
     ∧ length (NGTDM.P self') = size (Spec.intensities im)
     ∧ ∀ i, (i < size (Spec.intensities im))%nat →
            NGTDM.P self' !! i
            = Some (double_of_Z (Z.of_nat (size (Spec.intensities im)))
                    / double_of_Z (height im * width im))%float)
  ∧ (height im * width im ≠ 1 → height im * width im ≤ INT_MAX →
     Forall (λ v, 0 ≤ v ≤ INT_MAX) (ReadablePixels im) →
     Forall (λ n, INT_MIN ≤ n ∧ n + height im * width im ≤ INT_MAX)
       (NGTDM.N self) →
     INT_MIN ≤ NGTDM.Nvp self →
     NGTDM.Nvp self + height im * width im ≤ INT_MAX →
     is_Some (NGTDM.initialize minI maxI im self)).
Proof.
  intros Hne Hwf. split.
  - intros self' Hrun.
    destruct (initialize_post minI maxI im self self' Hne Hwf Hrun)
      as (_ & HNg & _ & HP & _).
    destruct (levels_spec im) as (_ & _ & <- & _).
    split; [done|]. rewrite HP, length_replicate. split; [done|].
    intros i Hi. by apply lookup_replicate_2.
  - by apply initialize_defined.
Qed.

Lemma initialize_P_uniform_witness :
  ∃ self', NGTDM.initialize 1 7 im_2x3 NGTDM.fresh = Some self'
    ∧ NGTDM.Ng self' = Z.of_nat (size (Spec.intensities im_2x3))
    ∧ length (NGTDM.P self') = size (Spec.intensities im_2x3)
    ∧ ∀ i, (i < size (Spec.intensities im_2x3))%nat →
           NGTDM.P self' !! i
           = Some (double_of_Z (Z.of_nat (size (Spec.intensities im_2x3)))
                   / double_of_Z (height im_2x3 * width im_2x3))%float.
Proof.
  destruct (initialize_P_uniform 1 7 im_2x3 NGTDM.fresh) as [Hpost Hdef];
    [lia | split; simpl; lia |].
  destruct Hdef as [self' Hrun];
    [ simpl; lia | by vm_compute | repeat constructor; by vm_compute
    | constructor | by vm_compute | by vm_compute | ].
  exists self'. split; [exact Hrun|]. by apply Hpost.
Defined.

(** Whenever [initialize] returns on a matrix that is not degenerate,
    [Ngp] equals [Ng], the three arrays [P], [S] and [N] all have [Ng]
    entries, and the bad-data flag is what it was before the call. *)
Theorem initialize_shape (minI maxI : Z) (im : ImageMatrix)
    (self self' : NGTDM.t) :
  minI ≠ maxI → wf_matrix im →
  NGTDM.initialize minI maxI im self = Some self' →
  NGTDM.Ngp self' = NGTDM.Ng self'
  ∧ Z.of_nat (length (NGTDM.P self')) = NGTDM.Ng self'
  ∧ Z.of_nat (length (NGTDM.S self')) = NGTDM.Ng self'
  ∧ Z.of_nat (length (NGTDM.N self')) = NGTDM.Ng self'
  ∧ NGTDM.bad_roi_data self' = NGTDM.bad_roi_data self.
Proof.
  intros Hne Hwf Hrun.
  destruct (initialize_post minI maxI im self self' Hne Hwf Hrun)
    as (Hbad & HNg & HNgp & HP & HlS & HlN & _).
  rewrite HNg, HNgp, HP, HlS, HlN. by rewrite length_replicate.
Qed.

Lemma initialize_shape_witness :
  NGTDM.initialize 1 7 im_2x3 NGTDM.fresh = Some ngtdm_2x3
  ∧ NGTDM.Ngp ngtdm_2x3 = NGTDM.Ng ngtdm_2x3
  ∧ Z.of_nat (length (NGTDM.P ngtdm_2x3)) = NGTDM.Ng ngtdm_2x3
  ∧ Z.of_nat (length (NGTDM.S ngtdm_2x3)) = NGTDM.Ng ngtdm_2x3
  ∧ Z.of_nat (length (NGTDM.N ngtdm_2x3)) = NGTDM.Ng ngtdm_2x3
  ∧ NGTDM.bad_roi_data ngtdm_2x3 = NGTDM.bad_roi_data NGTDM.fresh.
Proof.
  split; [by vm_compute|].
  apply (initialize_shape 1 7 im_2x3 NGTDM.fresh ngtdm_2x3);
    [lia | split; simpl; lia | by vm_compute].
Defined.

(** [N] is indexed by intensity rank: the index vector lists each distinct
    non-zero intensity once, in ascending order, and whenever [initialize]
    returns it has added to [N[k]] (0 where the array was shorter) the
    number of pixels that hold the intensity of rank [k]. *)
Theorem initialize_N_counts (minI maxI : Z) (im : ImageMatrix)
    (self self' : NGTDM.t) :
  minI ≠ maxI → wf_matrix im →
  NGTDM.initialize minI maxI im self = Some self' →
  NoDup (levels im) ∧ Sorted Z.le (levels im)
  ∧ (∀ x, x ∈ levels im ↔ x ≠ 0 ∧ x ∈ ReadablePixels im)
  ∧ ∀ k x, levels im !! k = Some x →
      NGTDM.N self' !! k
      = Some (default 0 (NGTDM.N self !! k)
              + Z.of_nat (occurrences x (ReadablePixels im))).
Proof.
  intros Hne Hwf Hrun.
  destruct (levels_spec im) as (Hnd & Hsort & _ & Hlev).
  do 3 (split; [done|]).
  destruct (initialize_post minI maxI im self self' Hne Hwf Hrun)
    as (_ & _ & _ & _ & _ & _ & _ & Hent).
  intros k x Hk. by destruct (Hent k x Hk).
Qed.

Lemma initialize_N_counts_witness :
  NGTDM.initialize 1 7 im_2x3 NGTDM.fresh = Some ngtdm_2x3
  ∧ NoDup (levels im_2x3) ∧ Sorted Z.le (levels im_2x3)
  ∧ (∀ x, x ∈ levels im_2x3 ↔ x ≠ 0 ∧ x ∈ ReadablePixels im_2x3)
  ∧ ∀ k x, levels im_2x3 !! k = Some x →
      NGTDM.N ngtdm_2x3 !! k
      = Some (default 0 (NGTDM.N NGTDM.fresh !! k)
              + Z.of_nat (occurrences x (ReadablePixels im_2x3))).
Proof.
  split; [by vm_compute|].
  apply (initialize_N_counts 1 7 im_2x3 NGTDM.fresh ngtdm_2x3);
    [lia | split; simpl; lia | by vm_compute].
Defined.

(** Whenever [initialize] returns it has added to [S[k]], one zone after
    the other in scan order, [|intensity − recorded neighbourhood value|]
    of every zone whose intensity has rank [k]. *)
Theorem initialize_S_sums (minI maxI : Z) (im : ImageMatrix)
    (self self' : NGTDM.t) :
  minI ≠ maxI → wf_matrix im →
  NGTDM.initialize minI maxI im self = Some self' →
  ∀ k x, levels im !! k = Some x →
    NGTDM.S self' !! k
    = Some (abs_diff_sum (default 0%float (NGTDM.S self !! k))
              (zones_of x (Spec.zones im))).
Proof.
  intros Hne Hwf Hrun.
  destruct (initialize_post minI maxI im self self' Hne Hwf Hrun)
    as (_ & _ & _ & _ & _ & _ & _ & Hent).
  intros k x Hk. by destruct (Hent k x Hk).
Qed.

Lemma initialize_S_sums_witness :
  NGTDM.initialize 1 7 im_2x3 NGTDM.fresh = Some ngtdm_2x3
  ∧ ∀ k x, levels im_2x3 !! k = Some x →
      NGTDM.S ngtdm_2x3 !! k
      = Some (abs_diff_sum (default 0%float (NGTDM.S NGTDM.fresh !! k))
                (zones_of x (Spec.zones im_2x3))).
Proof.
  split; [by vm_compute|].
  apply (initialize_S_sums 1 7 im_2x3 NGTDM.fresh ngtdm_2x3);
    [lia | split; simpl; lia | by vm_compute].
Defined.

(** [Nvp] is never reset: whenever [initialize] returns it has added to the
    value the object held the number of zones whose recorded neighbourhood
    value is positive, which is at most the number of non-zero pixels. *)
Theorem initialize_Nvp (minI maxI : Z) (im : ImageMatrix)
    (self self' : NGTDM.t) :
  minI ≠ maxI → wf_matrix im →
  NGTDM.initialize minI maxI im self = Some self' →
  NGTDM.Nvp self'
  = NGTDM.Nvp self + Z.of_nat (length (positive_zones (Spec.zones im)))
  ∧ (length (positive_zones (Spec.zones im))
     ≤ length (filter (λ v : Z, v ≠ 0%Z) (ReadablePixels im)))%nat.
Proof.
  intros Hne Hwf Hrun.
  destruct (initialize_post minI maxI im self self' Hne Hwf Hrun)
    as (_ & _ & _ & _ & _ & _ & HNvp & _).
  split; [done|].
  rewrite <-(zones_intensities im Hwf), length_fmap.
  unfold positive_zones. apply length_filter.
Qed.

Lemma initialize_Nvp_witness :
  NGTDM.initialize 1 7 im_2x3 NGTDM.fresh = Some ngtdm_2x3
  ∧ NGTDM.Nvp ngtdm_2x3
  = NGTDM.Nvp NGTDM.fresh
    + Z.of_nat (length (positive_zones (Spec.zones im_2x3)))
  ∧ (length (positive_zones (Spec.zones im_2x3))
     ≤ length (filter (λ v : Z, v ≠ 0%Z) (ReadablePixels im_2x3)))%nat.
Proof.
  split; [by vm_compute|].
  apply (initialize_Nvp 1 7 im_2x3 NGTDM.fresh ngtdm_2x3);
    [lia | split; simpl; lia | by vm_compute].
Defined.

(** [initialize] is not idempotent on its object: whenever it returns a
    second time on the same matrix it has left [Ng] and [P] as they were,
    but has counted every pixel into [N] and every positive zone into [Nvp]
    once more. *)
Theorem initialize_twice (minI maxI : Z) (im : ImageMatrix)
    (self s1 s2 : NGTDM.t) :
  minI ≠ maxI → wf_matrix im →
  NGTDM.initialize minI maxI im self = Some s1 →
  NGTDM.initialize minI maxI im s1 = Some s2 →
  NGTDM.Ng s2 = NGTDM.Ng s1 ∧ NGTDM.P s2 = NGTDM.P s1
  ∧ NGTDM.Nvp s2
    = NGTDM.Nvp s1 + Z.of_nat (length (positive_zones (Spec.zones im)))
  ∧ ∀ k x, levels im !! k = Some x →
      ∃ n1, NGTDM.N s1 !! k = Some n1
            ∧ NGTDM.N s2 !! k
              = Some (n1 + Z.of_nat (occurrences x (ReadablePixels im))).
Proof.
  intros Hne Hwf Hrun1 Hrun2.
  destruct (initialize_post minI maxI im self s1 Hne Hwf Hrun1)
    as (_ & HNg1 & _ & HP1 & _ & _ & _ & Hent1).
  destruct (initialize_post minI maxI im s1 s2 Hne Hwf Hrun2)
    as (_ & HNg2 & _ & HP2 & _ & _ & HNvp2 & Hent2).
  split; [congruence|]. split; [congruence|]. split; [done|].
  intros k x Hk. destruct (Hent1 k x Hk) as [HN1 _].
  destruct (Hent2 k x Hk) as [HN2 _]. eexists. split; [exact HN1|].
  by rewrite HN2, HN1.
Qed.

(** The state a second run on the 2×3 sample leaves: [N], [S] and [Nvp] have
    doubled. *)
Lemma initialize_twice_2x3 :
  NGTDM.initialize 1 7 im_2x3 ngtdm_2x3 = Some ngtdm_2x3_twice.
Proof. by vm_compute. Qed.

Lemma initialize_twice_witness :
  NGTDM.initialize 1 7 im_2x3 NGTDM.fresh = Some ngtdm_2x3
  ∧ NGTDM.initialize 1 7 im_2x3 ngtdm_2x3 = Some ngtdm_2x3_twice
  ∧ NGTDM.Ng ngtdm_2x3_twice = NGTDM.Ng ngtdm_2x3
  ∧ NGTDM.P ngtdm_2x3_twice = NGTDM.P ngtdm_2x3
  ∧ NGTDM.Nvp ngtdm_2x3_twice
    = NGTDM.Nvp ngtdm_2x3
      + Z.of_nat (length (positive_zones (Spec.zones im_2x3)))
  ∧ ∀ k x, levels im_2x3 !! k = Some x →
      ∃ n1, NGTDM.N ngtdm_2x3 !! k = Some n1
            ∧ NGTDM.N ngtdm_2x3_twice !! k
              = Some (n1 + Z.of_nat (occurrences x (ReadablePixels im_2x3))).
Proof.
  do 2 (split; [by vm_compute|]).
  apply (initialize_twice 1 7 im_2x3 NGTDM.fresh ngtdm_2x3 ngtdm_2x3_twice);
    [lia | split; simpl; lia | by vm_compute | by vm_compute].
Defined.

(** [initialize] returns on a well-formed matrix of two cells or more
    whose cell count and intensities fit an [int], when the counters [N]
    and [Nvp] of the object leave room for one increment per cell. *)
Theorem initialize_returns (minI maxI : Z) (im : ImageMatrix)
    (self : NGTDM.t) :
  minI ≠ maxI → wf_matrix im →
  height im * width im ≠ 1 → height im * width im ≤ INT_MAX →
  Forall (λ v, 0 ≤ v ≤ INT_MAX) (ReadablePixels im) →
  Forall (λ n, INT_MIN ≤ n ∧ n + height im * width im ≤ INT_MAX)
    (NGTDM.N self) →
  INT_MIN ≤ NGTDM.Nvp self →
  NGTDM.Nvp self + height im * width im ≤ INT_MAX →
  is_Some (NGTDM.initialize minI maxI im self).
Proof. apply initialize_defined. Qed.

Lemma initialize_returns_witness :
  is_Some (NGTDM.initialize 1 7 im_2x3 ngtdm_2x3).
Proof.
  apply (initialize_returns 1 7 im_2x3 ngtdm_2x3);
    [ lia | split; simpl; lia | simpl; lia | by vm_compute
    | repeat constructor; by vm_compute
    | repeat constructor; by vm_compute
    | by vm_compute | by vm_compute ].
Defined.

(** Outside those bounds the call can be undefined: a recorded
    neighbourhood value of 2^31 does not convert to [int], and a counter
    at [INT_MAX] cannot be incremented. *)
Lemma initialize_undefined_samples :
  NGTDM.initialize 7 (2 ^ 31) (mkImageMatrix 1 3 [7; 2 ^ 31; 7]) NGTDM.fresh
  = None
  ∧ NGTDM.initialize 1 7 im_2x3
      {| NGTDM.bad_roi_data := false; NGTDM.Ng := 0; NGTDM.Ngp := 0;
         NGTDM.Nvp := INT_MAX; NGTDM.P := []; NGTDM.S := []; NGTDM.N := [] |}
    = None.
Proof. split; by vm_compute. Qed.

(** The bad-data flag is sticky: [initialize] never clears it, so an object
    that was flagged bad stays bad whatever it is initialized with later,
    and its five scalars stay 0.0. *)
Theorem bad_flag_sticky (minI maxI : Z) (im : ImageMatrix)
    (self self' : NGTDM.t) :
  NGTDM.bad_roi_data self = true →
  NGTDM.initialize minI maxI im self = Some self' →
  NGTDM.bad_roi_data self' = true
  ∧ NGTDM.calc_Coarseness self' = Some 0%float
  ∧ NGTDM.calc_Contrast self' = Some 0%float
  ∧ NGTDM.calc_Busyness self' = Some 0%float
  ∧ NGTDM.calc_Complexity self' = Some 0%float
  ∧ NGTDM.calc_Strength self' = Some 0%float.
Proof.
  intros Hbad Hrun.
  assert (NGTDM.bad_roi_data self' = true) as Hbad'.
  { unfold NGTDM.initialize in Hrun. case_decide.
    - by injection Hrun as <-.
    - destruct (NGTDM.gather_zones im) as [ZU|]; [|done]. simpl in Hrun.
      destruct (int_checked _) as [ng|]; [|done]. simpl in Hrun.
      match type of Hrun with
      | context [for_each ?body ?l ?st] =>
          destruct (for_each body l st) as [st1|] eqn:Htally; [|done]
      end.
      simpl in Hrun.
      destruct (fill_P_loop_keeps _ _ _ _ _ Hrun) as (_ & _ & _ & ->).
      rewrite (for_each_preserved NGTDM.bad_roi_data _ _ _ _
                 (tally_zone_flag _) Htally).
      done. }
  split; [done|].
  unfold NGTDM.calc_Coarseness, NGTDM.calc_Contrast, NGTDM.calc_Busyness,
    NGTDM.calc_Complexity, NGTDM.calc_Strength.
  by rewrite Hbad'.
Qed.

Lemma bad_flag_sticky_witness :
  NGTDM.bad_roi_data ngtdm_2x3_flagged = true
  ∧ NGTDM.calc_Coarseness ngtdm_2x3_flagged = Some 0%float
  ∧ NGTDM.calc_Contrast ngtdm_2x3_flagged = Some 0%float
  ∧ NGTDM.calc_Busyness ngtdm_2x3_flagged = Some 0%float
  ∧ NGTDM.calc_Complexity ngtdm_2x3_flagged = Some 0%float
  ∧ NGTDM.calc_Strength ngtdm_2x3_flagged = Some 0%float.
Proof.
  apply (bad_flag_sticky 1 7 im_2x3 ngtdm_flagged ngtdm_2x3_flagged);
    [reflexivity | by vm_compute].
Defined.

(** ** NGTDM: a matrix without gray levels *)

(** With [Ng ≤ 0] no loop body runs, and the quotients are taken of the
    initial sums. *)
Lemma scalars_without_levels (self : NGTDM.t) :
  NGTDM.bad_roi_data self = false → NGTDM.Ng self ≤ 0 →
  NGTDM.calc_Coarseness self = Some infinity
  ∧ NGTDM.calc_Strength self = Some nan
  ∧ (NGTDM.Ngp self ≠ 1 → NGTDM.calc_Busyness self = Some nan)
  ∧ (NGTDM.Ngp self = 0 → NGTDM.calc_Contrast self = Some nan)
  ∧ (NGTDM.Nvp self = 0 → NGTDM.calc_Complexity self = Some nan).
Proof.
  intros Hbad HNg.
  unfold NGTDM.calc_Coarseness, NGTDM.calc_Strength, NGTDM.calc_Busyness,
    NGTDM.calc_Contrast, NGTDM.calc_Complexity.
  rewrite Hbad, !for_range_empty by done. simpl.
  split; [done|]. split; [done|]. split; [|split].
  - intros Hne. by rewrite decide_False by done.
  - intros ->. by vm_compute.
  - intros ->. by vm_compute.
Qed.

Lemma filter_all_zero (l : list Z) :
  Forall (λ v, v = 0) l → filter (λ v, v ≠ 0) l = [].
Proof.
  induction 1 as [|v l -> _ IH]; [done|].
  by rewrite filter_cons_False by (intros ?; done).
Qed.

(** On an all-background matrix the scan records nothing. *)
Lemma gather_zones_background (D : ImageMatrix) :
  wf_matrix D → Forall (λ v, v = 0) (ReadablePixels D) →
  NGTDM.gather_zones D = Some ([], ∅).
Proof.
  intros Hwf Hzero.
  destruct (decide (height D * width D = 1)) as [Hone|Hone].
  - destruct (gather_zones_one_cell D Hwf Hone) as (v & -> & ->).
    apply Forall_cons in Hzero as [-> _]. by rewrite decide_True.
  - rewrite (gather_zones_spec D Hwf Hone). f_equal. f_equal.
    + apply (fmap_nil_inv fst). rewrite zones_intensities by done.
      by apply filter_all_zero.
    + unfold Spec.intensities. rewrite filter_all_zero by done.
      by rewrite list_to_set_nil.
Qed.

(** An all-background matrix has no gray level: [initialize] with
    [minI ≠ maxI] on an object that is not flagged and whose [Nvp] is 0
    returns, leaves [Ng = Ngp = Nvp = 0] and the arrays [P], [S] and [N]
    empty without flagging the data, and the scalars are then quotients by
    zero: Coarseness is +infinity, the other four are NaN. *)
Theorem all_background_scalars (minI maxI : Z) (im : ImageMatrix)
    (self : NGTDM.t) :
  minI ≠ maxI → wf_matrix im →
  Forall (λ v, v = 0) (ReadablePixels im) →
  NGTDM.bad_roi_data self = false → NGTDM.Nvp self = 0 →
  ∃ self', NGTDM.initialize minI maxI im self = Some self'
    ∧ NGTDM.Ng self' = 0 ∧ NGTDM.Ngp self' = 0 ∧ NGTDM.Nvp self' = 0
    ∧ NGTDM.P self' = [] ∧ NGTDM.S self' = [] ∧ NGTDM.N self' = []
    ∧ NGTDM.bad_roi_data self' = false
    ∧ NGTDM.calc_Coarseness self' = Some infinity
    ∧ NGTDM.calc_Contrast self' = Some nan
    ∧ NGTDM.calc_Busyness self' = Some nan
    ∧ NGTDM.calc_Complexity self' = Some nan
    ∧ NGTDM.calc_Strength self' = Some nan.
Proof.
  intros Hne Hwf Hzero Hbad HNvp.
  assert (NGTDM.initialize minI maxI im self
          = Some {| NGTDM.bad_roi_data := false;
                    NGTDM.Ng := 0; NGTDM.Ngp := 0; NGTDM.Nvp := 0;
                    NGTDM.P := []; NGTDM.S := []; NGTDM.N := [] |}) as Hrun.
  { unfold NGTDM.initialize. rewrite decide_False by done.
    rewrite (gather_zones_background im Hwf Hzero). cbn -[size].
    rewrite size_empty. change (Z.of_nat 0) with 0.
    unfold int_checked. rewrite decide_True by done. simpl.
    by rewrite Hbad, HNvp. }
  eexists. split; [exact Hrun|]. simpl. do 7 (split; [done|]).
  match goal with |- context [NGTDM.calc_Coarseness ?st] =>
    destruct (scalars_without_levels st) as (Hc & Hs & Hb & Hk & Hx)
  end; [done..|].
  split; [done|]. split; [by apply Hk|]. split; [by apply Hb|].
  split; [by apply Hx|done].
Qed.

Lemma all_background_scalars_witness :
  ∃ self', NGTDM.initialize 0 1 im_blank NGTDM.fresh = Some self'
    ∧ NGTDM.Ng self' = 0 ∧ NGTDM.Ngp self' = 0 ∧ NGTDM.Nvp self' = 0
    ∧ NGTDM.P self' = [] ∧ NGTDM.S self' = [] ∧ NGTDM.N self' = []
    ∧ NGTDM.bad_roi_data self' = false
    ∧ NGTDM.calc_Coarseness self' = Some infinity
    ∧ NGTDM.calc_Contrast self' = Some nan
    ∧ NGTDM.calc_Busyness self' = Some nan
    ∧ NGTDM.calc_Complexity self' = Some nan
    ∧ NGTDM.calc_Strength self' = Some nan.
Proof.
  apply (all_background_scalars 0 1 im_blank NGTDM.fresh);
    [lia | split; simpl; lia | repeat constructor | reflexivity | reflexivity].
Defined.

(** ** NGTDM: how many neighbours, and how large a sum *)

Lemma neighbors_along_length (D : ImageMatrix) (row col : Z)
    (ds : list (Z * Z)) :
  wf_matrix D →
  length (Spec.neighbors_along D row col ds)
  = length (filter (λ d, safe D (row + d.1) (col + d.2) = true) ds).
Proof.
  intros Hwf. unfold Spec.neighbors_along.
  induction ds as [|d ds IH]; [done|]. cbn [omap list_omap].
  destruct (safe D (row + d.1) (col + d.2)) eqn:Hs.
  - destruct (safe_pixel D Hwf _ _ Hs) as [v ->].
    rewrite filter_cons_True by done. cbn [length]. by rewrite IH.
  - rewrite filter_cons_False by (by rewrite Hs). apply IH.
Qed.

Lemma sum_list_bound (B : Z) (l : list Z) :
  Forall (λ v, 0 ≤ v < B) l →
  0 ≤ Spec.sum_list l ∧ Spec.sum_list l ≤ (B - 1) * Z.of_nat (length l).
Proof.
  unfold Spec.sum_list. induction 1 as [|v l Hv _ IH]; simpl; [lia|].
  destruct IH. split; [lia|]. nia.
Qed.

(** Settle, offset by offset, which of the listed neighbour positions lie
    inside the matrix. *)
Ltac count_safe D :=
  repeat first
    [ rewrite filter_cons_True by (apply (safe_true D); simpl; lia)
    | rewrite filter_cons_False by (rewrite (safe_true D); simpl; lia) ];
  rewrite ?filter_nil.

(** The divisor [nd] is the number of neighbour positions inside the
    matrix: never more than 8, exactly 8 for an interior pixel, 5 on the top
    edge and 3 in the top-left corner of a matrix with two rows and columns
    or more. *)
Theorem neighbor_count_by_position (D : ImageMatrix) (row col : Z) :
  wf_matrix D →
  ∃ neigsI nd, NGTDM.neighborhood D row col = Some (neigsI, nd)
    ∧ 0 ≤ nd ≤ 8
    ∧ (1 ≤ row < height D - 1 → 1 ≤ col < width D - 1 → nd = 8)
    ∧ (row = 0 → 1 ≤ col < width D - 1 → 2 ≤ height D → nd = 5)
    ∧ (row = 0 → col = 0 → 2 ≤ height D → 2 ≤ width D → nd = 3).
Proof.
  intros Hwf. do 2 eexists. split; [by apply neighborhood_reads|].
  unfold Spec.inbounds_neighbors. rewrite neighbors_along_length by done.
  split; [|split; [|split]].
  - pose proof (length_filter
                  (λ d, safe D (row + d.1) (col + d.2) = true)
                  Spec.neighbor_offsets) as Hle.
    simpl in Hle. unfold Spec.neighbor_offsets in *. lia.
  - intros Hr Hc. unfold Spec.neighbor_offsets. by count_safe D.
  - intros -> Hc Hh. unfold Spec.neighbor_offsets. by count_safe D.
  - intros -> -> Hh Hw. unfold Spec.neighbor_offsets. by count_safe D.
Qed.

Lemma neighbor_count_by_position_witness :
  ∃ neigsI nd, NGTDM.neighborhood im_3x3 1 1 = Some (neigsI, nd)
    ∧ 0 ≤ nd ≤ 8
    ∧ (1 ≤ 1 < height im_3x3 - 1 → 1 ≤ 1 < width im_3x3 - 1 → nd = 8)
    ∧ (1 = 0 → 1 ≤ 1 < width im_3x3 - 1 → 2 ≤ height im_3x3 → nd = 5)
    ∧ (1 = 0 → 1 = 0 → 2 ≤ height im_3x3 → 2 ≤ width im_3x3 → nd = 3).
Proof.
  apply (neighbor_count_by_position im_3x3 1 1). split; simpl; lia.
Defined.

(** The centre of the 3×3 sample has all eight neighbours, its top-left
    corner three. *)
Lemma neighbor_count_3x3 :
  NGTDM.neighborhood im_3x3 1 1 = Some (40, 8)
  ∧ NGTDM.neighborhood im_3x3 0 0 = Some (11, 3).
Proof. split; by vm_compute. Qed.

(** With every intensity below 2^29 the 32-bit accumulator [neigsI] never
    wraps: before the division it holds the true sum of the in-bounds
    neighbours. *)
Theorem neighborhood_no_wrap (D : ImageMatrix) (row col : Z) :
  wf_matrix D →
  Forall (λ v, 0 ≤ v < 2 ^ 29) (ReadablePixels D) →
  NGTDM.neighborhood D row col
  = Some (Spec.sum_list (Spec.inbounds_neighbors D row col),
          Z.of_nat (length (Spec.inbounds_neighbors D row col)))
  ∧ 0 ≤ Spec.sum_list (Spec.inbounds_neighbors D row col) < uint32_modulus.
Proof.
  intros Hwf Hsmall.
  assert (0 ≤ Spec.sum_list (Spec.inbounds_neighbors D row col)
          < uint32_modulus) as Hsum.
  { destruct (sum_list_bound (2 ^ 29) (Spec.inbounds_neighbors D row col))
      as [Hlo Hhi].
    { apply Forall_forall. intros v Hv.
      eapply Forall_forall in Hsmall; [exact Hsmall|].
      by eapply neighbors_along_pixels. }
    assert (length (Spec.inbounds_neighbors D row col) ≤ 8)%nat as Hlen.
    { unfold Spec.inbounds_neighbors. rewrite neighbors_along_length by done.
      etrans; [apply length_filter|]. done. }
    unfold uint32_modulus. lia. }
  split; [|done]. rewrite neighborhood_reads by done.
  unfold wrap_uint32. by rewrite Z.mod_small.
Qed.

Lemma neighborhood_no_wrap_witness :
  NGTDM.neighborhood im_2x3 0 1
  = Some (Spec.sum_list (Spec.inbounds_neighbors im_2x3 0 1),
          Z.of_nat (length (Spec.inbounds_neighbors im_2x3 0 1)))
  ∧ 0 ≤ Spec.sum_list (Spec.inbounds_neighbors im_2x3 0 1) < uint32_modulus.
Proof.
  apply (neighborhood_no_wrap im_2x3 0 1);
    [split; simpl; lia | repeat constructor; lia].
Defined.

(** With intensities that large the accumulator does wrap: two neighbours
    of 2^31 each add up to 0. *)
Lemma neighborhood_wraps :
  NGTDM.neighborhood (mkImageMatrix 1 3 [2 ^ 31; 7; 2 ^ 31]) 0 1
  = Some (0, 2).
Proof. by vm_compute. Qed.

(** ** NGTDM: where the scalars are undefined *)

(** A single loop that subscripts [v] at every index below [Ng] is undefined
    when [v] is shorter than [Ng]; so is a double loop whose inner body does
    so with the outer or the inner index. *)
Lemma single_loop_short (v : list double) (hi : Z)
    (body : Z → double → option double) (a : double) :
  (length v < Z.to_nat hi)%nat →
  (∀ k b, NGTDM.sub v k = None → body k b = None) →
  for_range 0 hi body a = None.
Proof.
  intros Hlen Hbody. unfold for_range.
  apply (for_steps_undefined _ _ _ _ (Z.of_nat (length v))); [lia|].
  intros b. apply Hbody. unfold NGTDM.sub. rewrite Nat2Z.id.
  by apply lookup_ge_None.
Qed.

Lemma double_loop_short (v : list double) (hi : Z)
    (body : Z → Z → double → option double) (a : double) :
  (length v < Z.to_nat hi)%nat →
  (∀ i j b, NGTDM.sub v i = None → body i j b = None) →
  for_range 0 hi (λ i, for_range 0 hi (body i)) a = None.
Proof.
  intros Hlen Hbody. unfold for_range at 1.
  apply (for_steps_undefined _ _ _ _ (Z.of_nat (length v))); [lia|].
  intros b. apply for_range_first_undefined; [lia|].
  apply Hbody. unfold NGTDM.sub. rewrite Nat2Z.id. by apply lookup_ge_None.
Qed.

(** Settle a monadic sequence by showing that the loop at its head is
    undefined. *)
Ltac head_loop_undefined :=
  lazymatch goal with
  | |- (?m ≫= _) = None =>
      let H := fresh "Hloop" in
      assert (m = None) as H; [ | by rewrite H ]
  end.

(** The scalars subscript [P] and [S] at every index below [Ng] without a
    bounds check: on data not flagged bad, an array [P] shorter than [Ng]
    makes all five of them undefined (Busyness unless [Ngp = 1], where it
    returns before the loops). *)
Theorem scalars_P_too_short (self : NGTDM.t) :
  NGTDM.bad_roi_data self = false →
  (length (NGTDM.P self) < Z.to_nat (NGTDM.Ng self))%nat →
  NGTDM.calc_Coarseness self = None
  ∧ NGTDM.calc_Contrast self = None
  ∧ (NGTDM.Ngp self ≠ 1 → NGTDM.calc_Busyness self = None)
  ∧ NGTDM.calc_Complexity self = None
  ∧ NGTDM.calc_Strength self = None.
Proof.
  intros Hbad Hlen.
  unfold NGTDM.calc_Coarseness, NGTDM.calc_Contrast, NGTDM.calc_Busyness,
    NGTDM.calc_Complexity, NGTDM.calc_Strength. rewrite Hbad.
  split; [|split; [|split; [|split]]].
  - head_loop_undefined. apply (single_loop_short (NGTDM.P self)); [done|].
    by intros k b ->.
  - head_loop_undefined. apply (double_loop_short (NGTDM.P self)); [done|].
    by intros i j b ->.
  - intros Hne. rewrite decide_False by done.
    head_loop_undefined. apply (single_loop_short (NGTDM.P self)); [done|].
    by intros k b ->.
  - head_loop_undefined. apply (double_loop_short (NGTDM.P self)); [done|].
    by intros i j b ->.
  - head_loop_undefined. apply (double_loop_short (NGTDM.P self)); [done|].
    by intros i j b ->.
Qed.

Lemma scalars_P_too_short_witness :
  NGTDM.calc_Coarseness ngtdm_short = None
  ∧ NGTDM.calc_Contrast ngtdm_short = None
  ∧ (NGTDM.Ngp ngtdm_short ≠ 1 → NGTDM.calc_Busyness ngtdm_short = None)
  ∧ NGTDM.calc_Complexity ngtdm_short = None
  ∧ NGTDM.calc_Strength ngtdm_short = None.
Proof.
  apply (scalars_P_too_short ngtdm_short); [reflexivity | simpl; lia].
Defined.

(** [calc_Contrast] computes [Ngp * (Ngp − 1)] as an [int]: on data not
    flagged bad, more than 46341 gray levels overflow the product and the
    result is undefined. *)
Theorem calc_Contrast_overflow (self : NGTDM.t) :
  NGTDM.bad_roi_data self = false → 46341 < NGTDM.Ngp self →
  NGTDM.calc_Contrast self = None.
Proof.
  intros Hbad HNgp. unfold NGTDM.calc_Contrast. rewrite Hbad.
  rewrite decide_True by lia. unfold int_checked.
  rewrite decide_False by (unfold INT_MAX; nia).
  lazymatch goal with |- (?m ≫= _) = None => by destruct m end.
Qed.

Lemma calc_Contrast_overflow_witness :
  NGTDM.calc_Contrast ngtdm_many_levels = None.
Proof.
  apply (calc_Contrast_overflow ngtdm_many_levels); [reflexivity | simpl; lia].
Defined.

(** ** NGTDM: Contrast on many gray levels *)

Lemma filter_all {A} (P : A → Prop) `{!∀ x, Decision (P x)} (l : list A) :
  Forall P l → filter P l = l.
Proof.
  induction 1 as [|x l Hx _ IH]; [done|].
  by rewrite filter_cons_True, IH by done.
Qed.

Lemma many_levels_length : Z.of_nat (length many_levels) = 50000.
Proof.
  unfold many_levels. rewrite length_fmap, length_seq. by rewrite Z2Nat.id.
Qed.

Lemma many_levels_range : Forall (λ v, 1 ≤ v ≤ 50000) many_levels.
Proof.
  unfold many_levels. apply Forall_fmap, Forall_forall.
  intros i Hi%elem_of_seq. simpl. lia.
Qed.

Lemma many_levels_NoDup : NoDup many_levels.
Proof.
  unfold many_levels. apply (NoDup_fmap_2 _), NoDup_seq.
Qed.

Lemma im_many_levels_wf : wf_matrix im_many_levels.
Proof.
  split; [done|done|].
  change (ReadablePixels im_many_levels) with many_levels.
  by rewrite many_levels_length.
Qed.

(** Every cell of that matrix holds a gray level of its own. *)
Lemma im_many_levels_size :
  Z.of_nat (size (Spec.intensities im_many_levels)) = 50000.
Proof.
  unfold Spec.intensities.
  change (ReadablePixels im_many_levels) with many_levels.
  rewrite filter_all.
  - rewrite size_list_to_set by apply many_levels_NoDup.
    apply many_levels_length.
  - eapply Forall_impl; [apply many_levels_range|]. simpl. lia.
Qed.

(** The product [Ngp * (Ngp - 1)] leaves the range of [int] from 46342
    gray levels on. *)
Lemma Contrast_product_overflows (self : NGTDM.t) :
  NGTDM.bad_roi_data self = false → 46341 < NGTDM.Ngp self →
  NGTDM.calc_Contrast self = None.
Proof.
  intros Hbad HNgp. unfold NGTDM.calc_Contrast. rewrite Hbad.
  rewrite decide_True by lia. unfold int_checked.
  rewrite decide_False by (unfold INT_MAX; nia).
  lazymatch goal with |- (?m ≫= _) = None => by destruct m end.
Qed.

(** C7, on an image with 50000 gray levels (one row holding 1, 2, ...,
    50000): [initialize] on a fresh object returns a state that is not
    flagged bad and has [Ngp = 50000]; the formula's normalizer
    [Ngp·(Ngp−1)] is 2499950000, above [INT_MAX], so the [int] product
    [Ngp * (Ngp - 1)] of [calc_Contrast] overflows and no value is
    returned. *)
Theorem calc_Contrast_many_levels :
  ∃ self', NGTDM.initialize 1 50000 im_many_levels NGTDM.fresh = Some self'
    ∧ NGTDM.bad_roi_data self' = false
    ∧ NGTDM.Ngp self' = 50000
    ∧ Spec.Contrast_normalizer self' = 2499950000
    ∧ INT_MAX < Spec.Contrast_normalizer self'
    ∧ NGTDM.calc_Contrast self' = None.
Proof.
  pose proof im_many_levels_wf as Hwf.
  destruct (initialize_defined 1 50000 im_many_levels NGTDM.fresh)
    as [self' Hrun]; [lia|exact Hwf|..].
  { change (height im_many_levels * width im_many_levels) with 50000. lia. }
  { change (height im_many_levels * width im_many_levels) with 50000.
    unfold INT_MAX. lia. }
  { change (ReadablePixels im_many_levels) with many_levels.
    eapply Forall_impl; [apply many_levels_range|]. simpl.
    unfold INT_MAX. lia. }
  { constructor. }
  { by vm_compute. }
  { change (height im_many_levels * width im_many_levels) with 50000.
    unfold INT_MAX. simpl. lia. }
  destruct (initialize_post 1 50000 im_many_levels NGTDM.fresh self')
    as (Hbad & _ & HNgp & _); [lia|exact Hwf|exact Hrun|].
  destruct (levels_spec im_many_levels) as (_ & _ & Hlen & _).
  rewrite Hlen, im_many_levels_size in HNgp.
  assert (Spec.Contrast_normalizer self' = 2499950000) as Hnorm.
  { unfold Spec.Contrast_normalizer. rewrite HNgp.
    rewrite decide_False by lia. reflexivity. }
  exists self'. split; [exact Hrun|]. split; [exact Hbad|].
  split; [exact HNgp|]. split; [exact Hnorm|].
  split; [rewrite Hnorm; unfold INT_MAX; lia|].
  apply Contrast_product_overflows; [exact Hbad|lia].
Qed.
